(** * fusion360descriptor: the scene parser and the joint serializer

    A shallow embedding of [Descriptor/core/parser.py] (classes [JointInfo],
    [Hierarchy], [Configurator] and the function [get_origin]) and of the
    class [Joint] of [Descriptor/core/parts.py].

    Python floats are IEEE binary64 numbers and are modelled by Rocq's
    primitive floats; dictionaries whose iteration order the program observes
    are insertion-ordered association lists, the others are [gmap]s; Python
    sets are [gset]s, iterated through [elements].  Exceptions and the
    fatal errors of [utils.fatal] are the constructors of [outcome]. *)

From Stdlib Require Import ZArith List Ascii String Floats Lia.
From stdpp Require Import base option list strings gmap pretty.

Set Warnings "-inexact-float,-register-all".
Local Open Scope string_scope.
Local Open Scope list_scope.

(** ** Python control flow *)

Inductive exn := AssertionError | ValueError | KeyError | IndexError | TypeError.

(** The states of [adsk.fusion.FeatureHealthStates]. *)
Inductive FeatureHealthStates :=
| HealthyFeatureHealthState
| WarningFeatureHealthState
| ErrorFeatureHealthState
| UnknownFeatureHealthState
| SuppressedFeatureHealthState
| RolledBackFeatureHealthState.

(** Modelled from the spec: [utils.fatal] is not under src/; "all fatal
    errors abort the run immediately with a descriptive message naming the
    offending entities".  A message is kept as the constructor of its format
    string together with the values interpolated into it. *)
Inductive fatal_error :=
| NoGroundedOccurrence
    (* "Failed to find a grounded occurrence for base_link" *)
| UnexpectedHealthState (joint_name : string) (state : FeatureHealthStates)
    (* "Joint {name} ... is in unexpected Health State {state}" *)
| NoOrigin (orig_name : string)
    (* "Non-fixed joint {orig_name} does not have an origin, aborting" *)
| OriginsDoNotCoincide (occ_one occ_two orig_name : string)
                       (origin_one origin_two : list float)
    (* "Occurrences {occ_one} and {occ_two} of non-fixed {orig_name} have
        origins {origin_one} and {origin_two} that do not coincide. ..." *)
| InverseTransformFailed (occ_name : string)
    (* "Inverse transform failed for {oc.name}" *)
| CenterOfMassTransformFailed (occ_name : string)
    (* "Center of mass transform failed for {oc.name}" *)
| MomentsOfInertiaFailed (occ_name : string)
    (* "Retrieving moments of inertia for {oc.name} failed" *)
| NotAllIncluded (not_in_joints unreachable : gset string).
    (* "Not all components were included in the export: ..." *)

Inductive outcome (A : Type) :=
| Done (a : A)
| Fatal (msg : fatal_error)
| Raised (e : exn)
| LoopBound.   (* the bound of a modelled [while] loop was reached *)
Arguments Done {A} a.
Arguments Fatal {A} msg.
Arguments Raised {A} e.
Arguments LoopBound {A}.

#[global] Instance outcome_ret : MRet outcome := @Done.
#[global] Instance outcome_bind : MBind outcome := λ A B f m,
  match m with
  | Done a => f a
  | Fatal msg => Fatal msg
  | Raised e => Raised e
  | LoopBound => LoopBound
  end.

(** [for x in xs: body] over a state [S], aborting at the first error. *)
Fixpoint for_each {A S : Type} (body : A → S → outcome S) (xs : list A) (s : S)
  : outcome S :=
  match xs with
  | [] => Done s
  | x :: xs' => s' ← body x s; for_each body xs' s'
  end.

(** [assert o] for a host call that reports success through its result. *)
Definition assert_some {A : Type} (o : option A) : outcome A :=
  match o with Some a => Done a | None => Raised AssertionError end.

(** [d[k]] on a [dict]. *)
Definition subscript {A : Type} (d : gmap string A) (k : string) : outcome A :=
  match d !! k with Some a => Done a | None => Raised KeyError end.

(** An insertion-ordered [dict]: [d[k] = v], [d.get(k)], [k in d]. *)
Fixpoint dict_set {A : Type} (d : list (string * A)) (k : string) (v : A)
  : list (string * A) :=
  match d with
  | [] => [(k, v)]
  | (k', v') :: d' =>
      if decide (k' = k) then (k, v) :: d' else (k', v') :: dict_set d' k v
  end.

Fixpoint dict_get {A : Type} (d : list (string * A)) (k : string) : option A :=
  match d with
  | [] => None
  | (k', v') :: d' => if decide (k' = k) then Some v' else dict_get d' k
  end.

Definition dict_keys {A : Type} (d : list (string * A)) : gset string :=
  list_to_set (d.*1).

(** ** The host object model ([adsk.core], [adsk.fusion]) *)

Module Point3D.
Record t := mk { x : float; y : float; z : float }.
Definition create : t := mk 0 0 0.
Definition asArray (p : t) : list float := [x p; y p; z p].
End Point3D.

Module Vector3D.
Record t := mk { x : float; y : float; z : float }.
Definition asArray (v : t) : list float := [x v; y v; z v].
Definition asPoint (v : t) : Point3D.t := Point3D.mk (x v) (y v) (z v).
End Vector3D.

(** A [Matrix3D] is read and written through its coordinate system:
    [getAsCoordinateSystem] returns the origin and the three axis vectors,
    [setWithCoordinateSystem] stores them. *)
Module Matrix3D.
Record t := mk
  { origin : Point3D.t; xAxis : Vector3D.t; yAxis : Vector3D.t; zAxis : Vector3D.t }.
Definition getAsCoordinateSystem (m : t)
  : Point3D.t * Vector3D.t * Vector3D.t * Vector3D.t :=
  (origin m, xAxis m, yAxis m, zAxis m).
Definition setWithCoordinateSystem
    (o : Point3D.t) (xa ya za : Vector3D.t) : option t :=
  Some (mk o xa ya za).
Definition translation (m : t) : Vector3D.t :=
  Vector3D.mk (Point3D.x (origin m)) (Point3D.y (origin m)) (Point3D.z (origin m)).
End Matrix3D.

Inductive Property :=
| ColorProperty (red green blue opacity : Z)
| OtherProperty.

Module Appearance.
Record t := mk { name : string; appearanceProperties : list Property }.
End Appearance.

Module BRepBody.
Record t := mk
  { name : string;
    isLightBulbOn : bool;
    mass : float;                       (* physicalProperties.mass *)
    appearance : option Appearance.t }.
End BRepBody.

Module Occurrence.
Record t := mk
  { entityToken : string;
    name : string;
    isLightBulbOn : bool;
    isGrounded : bool;
    transform2 : Matrix3D.t;
    bRepBodies : list BRepBody.t;
    appearance : option Appearance.t;
    material : option Appearance.t;     (* component.material.appearance *)
    mass : float;                       (* getPhysicalProperties(..).mass *)
    centerOfMass : Point3D.t;           (* getPhysicalProperties(..).centerOfMass *)
    (* getPhysicalProperties(..).getXYZMomentsOfInertia(): the flag
       [moments[0]] and the six moments [moments[1:]] *)
    xyzMomentsOfInertia : bool * list float }.
End Occurrence.

Module JointLimits.
Record t := mk
  { isMaximumValueEnabled : bool;
    isMinimumValueEnabled : bool;
    maximumValue : float;
    minimumValue : float }.
End JointLimits.

(** The classes of [joint.jointMotion]; [jointType] is their ordinal in
    [adsk.fusion.JointTypes]. *)
Inductive JointMotion :=
| RigidJointMotion
| RevoluteJointMotion (rotationAxisVector : Vector3D.t) (rotationLimits : JointLimits.t)
| SliderJointMotion (slideDirectionVector : Vector3D.t) (slideLimits : JointLimits.t)
| CylindricalJointMotion
| PinSlotJointMotion
| PlanarJointMotion
| BallJointMotion.

Definition jointType (m : JointMotion) : nat :=
  match m with
  | RigidJointMotion => 0
  | RevoluteJointMotion _ _ => 1
  | SliderJointMotion _ _ => 2
  | CylindricalJointMotion => 3
  | PinSlotJointMotion => 4
  | PlanarJointMotion => 5
  | BallJointMotion => 6
  end.

(** What [joint.geometryOrOriginOne] and the attributes reached from it can
    be: [get_origin] dispatches on these classes. *)
Inductive Geometry :=
| PyNone
| APoint3D (p : Point3D.t)
| AVector3D (v : Vector3D.t)
| JointGeometry (origin : Geometry)
| JointOrigin (geometry : Geometry)
| RaisesRuntimeError                     (* reading the attribute raises *)
| OtherObject.

Module HostJoint.
Record t := mk
  { name : string;
    healthState : FeatureHealthStates;
    isValid : bool;        (* false: reading the joint raises RuntimeError *)
    jointMotion : JointMotion;
    occurrenceOne : Occurrence.t;
    occurrenceTwo : Occurrence.t;
    geometryOrOriginOne : Geometry;
    geometryOrOriginTwo : Geometry }.
End HostJoint.

Module RigidGroup.
Record t := mk { name : string; occurrences : list Occurrence.t }.
End RigidGroup.

(** The tree that [Hierarchy.traverse] builds over the occurrences: a node
    wraps one occurrence and owns the nodes of its child occurrences. *)
Inductive Hierarchy := HNode (component : Occurrence.t) (children : list Hierarchy).

Definition component (h : Hierarchy) : Occurrence.t :=
  match h with HNode c _ => c end.
Definition get_children (h : Hierarchy) : list Hierarchy :=
  match h with HNode _ cs => cs end.

(** The root component of the design. *)
Module Component.
Record t := mk
  { name : string;
    occurrences : list Hierarchy;       (* the top-level occurrences and below *)
    allJoints : list HostJoint.t;
    allRigidGroups : list RigidGroup.t }.
End Component.

(** ** Collaborators that are not under src/ *)

(** [Matrix3D.invert], [Matrix3D.transformBy], [Vector3D.transformBy] and
    [Point3D.transformBy] of the host: each updates its receiver and reports
    success; [None] is the result [False]. *)
Class Host := {
  invert : Matrix3D.t → option Matrix3D.t;
  transformBy : Matrix3D.t → Matrix3D.t → option Matrix3D.t;
  vector_transformBy : Vector3D.t → Matrix3D.t → option Vector3D.t;
  point_transformBy : Point3D.t → Matrix3D.t → option Point3D.t
}.

(** The functions of [utils] that the parser calls.  [rename_if_duplicate]
    only consults the keys of the dictionary it is given. *)
Class Utils := {
  rename_if_duplicate : string → gset string → string;
  format_name : string → string;
  convert_german : string → string
}.

(** What the naming resolver promises of [rename_if_duplicate]: the name it
    returns is not yet a key. *)
Class UtilsFresh `{Utils} :=
  rename_fresh : ∀ (input : string) (keys : gset string),
    rename_if_duplicate input keys ∉ keys.

(** Modelled from the spec: [utils.so3_to_euler] is not under src/; it gives
    the "orientation (as roll-pitch-yaw)" of a transform.  The parser hands
    the result to [parts.Link] and [parts.Joint] without looking at it, so
    the model keeps the transform whose orientation it is. *)
Inductive Euler := so3_to_euler (m : Matrix3D.t).

(** ** [parser.JointInfo], [parts.Joint] and the link data *)

Module JointInfo.
Record t := mk
  { name : string;
    parent : string;
    child : string;
    type : string;
    origin : Point3D.t;
    axis : list float;
    upper_limit : float;
    lower_limit : float }.
(** [JointInfo(name=.., child=.., parent=..)]: the defaults of the dataclass. *)
Definition fixed (name parent child : string) : t :=
  mk name parent child "fixed" Point3D.create [0; 0; 0]%float 0 0.
End JointInfo.

Module Joint.
Record t := mk
  { name : string;
    xyz : list float;
    rpy : Euler;
    axis : list float;
    parent : string;
    child : string;
    type : string;
    upper_limit : float;
    lower_limit : float }.
Definition effort_limit : float := 100.0.
Definition vel_limit : float := 100.0.
End Joint.

(** The values of [self.links]: of the arguments of [parts.Link], the
    name, the position, the orientation and the mass. *)
Module Link.
Record t := mk { name : string; xyz : list float; rpy : Euler; mass : float }.
End Link.

Inductive JointOrder := ParentChild | ChildParent.   (* ('p','c') | ('c','p') *)

(** A registered colour: the literal default or
    [f"{red/255} {green/255} {blue/255} {opacity/255}"]. *)
Inductive ColorString :=
| ColorLiteral (s : string)
| ColorRGBA (red green blue opacity : float).

(** ** [parser.Configurator] *)

Record Configurator := mkConfigurator
  { root : Component.t;
    scale : float;
    cm : float;
    joint_order : JointOrder;
    links_by_token : gmap string string;
    links_by_name : gmap string Occurrence.t;
    joints_dict : list (string * JointInfo.t);
    body_dict : gmap string (list BRepBody.t);
    material_dict : gmap string string;   (* name -> its 'material' entry *)
    color_dict : gmap string ColorString;
    links : gmap string Link.t;
    joints : gmap string Joint.t;
    base_link : option Occurrence.t;
    component_map : list (string * Hierarchy);
    body_mapper : gmap string (list BRepBody.t);
    link_origins : gmap string Matrix3D.t }.

(** [Configurator.__init__]. *)
Definition init (root : Component.t) (scale cm : float) : Configurator :=
  mkConfigurator root scale cm ParentChild ∅ ∅ [] ∅ ∅ ∅ ∅ ∅ None [] ∅ ∅.

Definition eps (self : Configurator) : float := (1e-7 / scale self)%float.

Definition set_names (self : Configurator)
    (by_token : gmap string string) (by_name : gmap string Occurrence.t) :=
  mkConfigurator (root self) (scale self) (cm self) (joint_order self)
    by_token by_name (joints_dict self) (body_dict self) (material_dict self)
    (color_dict self) (links self) (joints self) (base_link self)
    (component_map self) (body_mapper self) (link_origins self).

Definition set_joints_dict (self : Configurator) (d : list (string * JointInfo.t)) :=
  mkConfigurator (root self) (scale self) (cm self) (joint_order self)
    (links_by_token self) (links_by_name self) d (body_dict self)
    (material_dict self) (color_dict self) (links self) (joints self)
    (base_link self) (component_map self) (body_mapper self) (link_origins self).

Definition set_joint_order (self : Configurator) (o : JointOrder) :=
  mkConfigurator (root self) (scale self) (cm self) o
    (links_by_token self) (links_by_name self) (joints_dict self) (body_dict self)
    (material_dict self) (color_dict self) (links self) (joints self)
    (base_link self) (component_map self) (body_mapper self) (link_origins self).

Definition set_body_dict (self : Configurator) (d : gmap string (list BRepBody.t)) :=
  mkConfigurator (root self) (scale self) (cm self) (joint_order self)
    (links_by_token self) (links_by_name self) (joints_dict self) d
    (material_dict self) (color_dict self) (links self) (joints self)
    (base_link self) (component_map self) (body_mapper self)
    (link_origins self).

Definition set_material_dict (self : Configurator) (d : gmap string string) :=
  mkConfigurator (root self) (scale self) (cm self) (joint_order self)
    (links_by_token self) (links_by_name self) (joints_dict self)
    (body_dict self) d (color_dict self) (links self) (joints self)
    (base_link self) (component_map self) (body_mapper self)
    (link_origins self).

Definition set_color_dict (self : Configurator) (d : gmap string ColorString) :=
  mkConfigurator (root self) (scale self) (cm self) (joint_order self)
    (links_by_token self) (links_by_name self) (joints_dict self)
    (body_dict self) (material_dict self) d (links self) (joints self)
    (base_link self) (component_map self) (body_mapper self)
    (link_origins self).

Definition set_joints (self : Configurator) (d : gmap string Joint.t) :=
  mkConfigurator (root self) (scale self) (cm self) (joint_order self)
    (links_by_token self) (links_by_name self) (joints_dict self)
    (body_dict self) (material_dict self) (color_dict self) (links self) d
    (base_link self) (component_map self) (body_mapper self)
    (link_origins self).

Definition set_base_link (self : Configurator) (o : option Occurrence.t) :=
  mkConfigurator (root self) (scale self) (cm self) (joint_order self)
    (links_by_token self) (links_by_name self) (joints_dict self)
    (body_dict self) (material_dict self) (color_dict self) (links self)
    (joints self) o (component_map self) (body_mapper self)
    (link_origins self).

Definition set_component_map (self : Configurator) (d : list (string * Hierarchy)) :=
  mkConfigurator (root self) (scale self) (cm self) (joint_order self)
    (links_by_token self) (links_by_name self) (joints_dict self)
    (body_dict self) (material_dict self) (color_dict self) (links self)
    (joints self) (base_link self) d (body_mapper self) (link_origins self).

Definition set_body_mapper (self : Configurator) (d : gmap string (list BRepBody.t)) :=
  mkConfigurator (root self) (scale self) (cm self) (joint_order self)
    (links_by_token self) (links_by_name self) (joints_dict self)
    (body_dict self) (material_dict self) (color_dict self) (links self)
    (joints self) (base_link self) (component_map self) d (link_origins self).

Definition set_link_origins (self : Configurator) (d : gmap string Matrix3D.t) :=
  mkConfigurator (root self) (scale self) (cm self) (joint_order self)
    (links_by_token self) (links_by_name self) (joints_dict self)
    (body_dict self) (material_dict self) (color_dict self) (links self)
    (joints self) (base_link self) (component_map self) (body_mapper self) d.

(** [str.split()[0]]: the first run of characters that are not white space;
    an [IndexError] when there is none.  A string is the sequence of its
    code points, which are below 256 here; of the code points at which
    [str.split()] splits, these are U+0009 to U+000D, U+001C to U+0020,
    U+0085 and U+00A0. *)
Definition is_space (a : ascii) : bool :=
  let n := Ascii.nat_of_ascii a in
  (9 <=? n)%nat && (n <=? 13)%nat || (28 <=? n)%nat && (n <=? 32)%nat
  || (n =? 133)%nat || (n =? 160)%nat.

Fixpoint lstrip (s : string) : string :=
  match s with
  | String a s' => if is_space a then lstrip s' else s
  | EmptyString => EmptyString
  end.

Fixpoint first_word (s : string) : string :=
  match s with
  | String a s' => if is_space a then EmptyString else String a (first_word s')
  | EmptyString => EmptyString
  end.

(** The property [Configurator.name]. *)
Definition name (self : Configurator) : outcome string :=
  match lstrip (Component.name (root self)) with
  | EmptyString => Raised IndexError
  | s => Done (first_word s)
  end.

Definition joint_type_list : list string :=
  ["fixed"; "revolute"; "prismatic"; "Cylinderical"; "PinSlot"; "Planner"; "Ball"].

(** [get_origin]: the point behind a joint geometry, [None], or an
    exception ([inl true] is a [RuntimeError], [inl false] a [ValueError]). *)
Fixpoint get_origin (o : Geometry) : bool + option Point3D.t :=
  match o with
  | JointGeometry origin => get_origin origin
  | PyNone => inr None
  | JointOrigin geometry => get_origin geometry
  | AVector3D v => inr (Some (Vector3D.asPoint v))
  | APoint3D p => inr (Some p)
  | RaisesRuntimeError => inl true
  | OtherObject => inl false
  end.

(** [try: g = get_origin(..) except RuntimeError: g = None]. *)
Definition try_get_origin (o : Geometry) : outcome (option Point3D.t) :=
  match get_origin o with
  | inr r => Done r
  | inl true => Done None
  | inl false => Raised ValueError
  end.

(** [close_enough] on two floats, and on two tuples of floats of one length
    ([assert len(a) == len(b)]). *)
Definition close_enough_float (self : Configurator) (a b : float) : bool :=
  (abs (a - b) <? eps self)%float.

Definition close_enough_array (self : Configurator) (a b : list float) : outcome bool :=
  if decide (length a = length b)
  then Done (forallb (λ ab, close_enough_float self ab.1 ab.2) (zip a b))
  else Raised AssertionError.

(** [close_enough] on two [Point3D]. *)
Definition close_enough (self : Configurator) (a b : Point3D.t) : outcome bool :=
  close_enough_array self (Point3D.asArray a) (Point3D.asArray b).

Section parser.
Context `{Utils} `{Host}.

(** [Configurator.get_name]. *)
Definition get_name (oc : Occurrence.t) (self : Configurator)
  : string * Configurator :=
  match links_by_token self !! Occurrence.entityToken oc with
  | Some name => (name, self)
  | None =>
      let name := rename_if_duplicate (Occurrence.name oc) (dom (links_by_name self)) in
      (name, set_names self
               (<[Occurrence.entityToken oc := name]> (links_by_token self))
               (<[name := oc]> (links_by_name self)))
  end.

(** Lines 459-483 of [_joints]: the axis and the limits of a joint motion,
    as [(joint_vector, joint_limit_max, joint_limit_min)]. *)
Definition axis_and_limits (self : Configurator) (motion : JointMotion)
  : outcome (list float * float * float) :=
  match motion with
  | RevoluteJointMotion rotationAxisVector rotationLimits =>
      if negb (JointLimits.isMaximumValueEnabled rotationLimits) then Raised AssertionError
      else if negb (JointLimits.isMinimumValueEnabled rotationLimits) then Raised AssertionError
      else
        let joint_vector := Vector3D.asArray rotationAxisVector in
        let joint_limit_max := JointLimits.maximumValue rotationLimits in
        let joint_limit_min := JointLimits.minimumValue rotationLimits in
        if (abs (joint_limit_max - joint_limit_min) =? 0)%float
        then Done (joint_vector, 3.14159, -3.14159)%float
        else Done (joint_vector, joint_limit_max, joint_limit_min)
  | SliderJointMotion slideDirectionVector slideLimits =>
      if negb (JointLimits.isMaximumValueEnabled slideLimits) then Raised AssertionError
      else if negb (JointLimits.isMinimumValueEnabled slideLimits) then Raised AssertionError
      else
        Done (Vector3D.asArray slideDirectionVector,
              JointLimits.maximumValue slideLimits * cm self,
              JointLimits.minimumValue slideLimits * cm self)%float
  | _ => Done ([0; 0; 0], 0, 0)%float
  end.

(** Lines 447-487 of [_joints]: the record of one joint, once its name,
    its two occurrences' names and its two origins are known. *)
Definition joint_info (self : Configurator) (joint : HostJoint.t)
    (joint_type name parent child : string)
    (geom_one_origin geom_two_origin : option Point3D.t) : outcome JointInfo.t :=
  let orig_name := HostJoint.name joint in
  if decide (joint_type = "fixed") then
    Done (JointInfo.fixed name parent child)
  else
    origin ←
      match geom_one_origin with
      | None => Fatal (NoOrigin orig_name)
      | Some one =>
          match geom_two_origin with
          | None => Done one
          | Some two =>
              close ← close_enough self two one;
              if negb close then
                Fatal (OriginsDoNotCoincide
                         (Occurrence.name (HostJoint.occurrenceOne joint))
                         (Occurrence.name (HostJoint.occurrenceTwo joint))
                         orig_name (Point3D.asArray one) (Point3D.asArray two))
              else Done one
          end
      end;
    '(joint_vector, joint_limit_max, joint_limit_min) ←
      axis_and_limits self (HostJoint.jointMotion joint);
    Done (JointInfo.mk name parent child joint_type origin joint_vector
            joint_limit_max joint_limit_min).

(** The body of the loop over [self.root.allJoints]. *)
Definition process_joint (joint : HostJoint.t) (self : Configurator)
  : outcome Configurator :=
  match HostJoint.healthState joint with
  | SuppressedFeatureHealthState | RolledBackFeatureHealthState => Done self
  | HealthyFeatureHealthState =>
      if negb (HostJoint.isValid joint) then Done self
      else
        joint_type ←
          match joint_type_list !! jointType (HostJoint.jointMotion joint) with
          | Some ty => Done ty
          | None => Raised IndexError
          end;
        let occ_one := HostJoint.occurrenceOne joint in
        let occ_two := HostJoint.occurrenceTwo joint in
        let name := rename_if_duplicate (HostJoint.name joint)
                      (dict_keys (joints_dict self)) in
        geom_one_origin ← try_get_origin (HostJoint.geometryOrOriginOne joint);
        geom_two_origin ← try_get_origin (HostJoint.geometryOrOriginTwo joint);
        let '(occ_one_name, self) := get_name occ_one self in
        let '(occ_two_name, self) := get_name occ_two self in
        let '(parent, child) :=
          match joint_order self with
          | ParentChild => (occ_one_name, occ_two_name)
          | ChildParent => (occ_two_name, occ_one_name)
          end in
        info ← joint_info self joint joint_type name parent child
                 geom_one_origin geom_two_origin;
        Done (set_joints_dict self (dict_set (joints_dict self) name info))
  | state => Fatal (UnexpectedHealthState (HostJoint.name joint) state)
  end.

(** The body of the loop over the occurrences of one rigid group, past
    the first one ([i > 0]). *)
Definition process_group_occurrence (original_group_name : string)
    (parent_occ occ : Occurrence.t) (self : Configurator) : Configurator :=
  let rigid_group_occ_name :=
    rename_if_duplicate original_group_name (dict_keys (joints_dict self)) in
  let '(parent_occ_name, self) := get_name parent_occ self in
  let '(occ_name, self) := get_name occ self in
  set_joints_dict self
    (dict_set (joints_dict self) rigid_group_occ_name
       (JointInfo.fixed rigid_group_occ_name parent_occ_name occ_name)).

(** The body of the loop over [self.root.allRigidGroups]. *)
Definition process_group (group : RigidGroup.t) (self : Configurator)
  : Configurator :=
  match RigidGroup.occurrences group with
  | [] => self
  | parent_occ :: others =>
      fold_left
        (λ self occ,
           process_group_occurrence (RigidGroup.name group) parent_occ occ self)
        others self
  end.

(** [Configurator._joints]. *)
Definition _joints (self : Configurator) : outcome Configurator :=
  self ← for_each process_joint (Component.allJoints (root self)) self;
  Done (fold_left (λ self group, process_group group self)
          (Component.allRigidGroups (root self)) self).

(** *** The scene graph *)

(** Every node below [h].  [Hierarchy.get_all_children] pops its work set
    in an unspecified order; the order here (a node, then what is below
    it, then its next sibling) is one of them. *)
Fixpoint descendants (h : Hierarchy) : list Hierarchy :=
  match h with
  | HNode _ cs => flat_map (λ c, c :: descendants c) cs
  end.

(** [Hierarchy.get_all_children], from the children [cs] of the node:
    the nodes below it by entity token. *)
Definition all_children (cs : list Hierarchy) : list (string * Hierarchy) :=
  fold_left
    (λ child_map tmp, dict_set child_map (Occurrence.entityToken (component tmp)) tmp)
    (flat_map (λ c, c :: descendants c) cs) [].

Definition get_all_children (h : Hierarchy) : list (string * Hierarchy) :=
  all_children (get_children h).

(** A Python [set] of [Hierarchy] objects is a list without repetition;
    the objects are told apart by the entity token of their occurrence. *)
Definition same_node (a b : Hierarchy) : bool :=
  bool_decide (Occurrence.entityToken (component a)
               = Occurrence.entityToken (component b)).

Definition set_add (s : list Hierarchy) (n : Hierarchy) : list Hierarchy :=
  if existsb (same_node n) s then s else s ++ [n].

Definition set_update (s new : list Hierarchy) : list Hierarchy :=
  fold_left set_add new s.

(** [[x.children for x in child_set if len(x.children) > 0]], flattened,
    with [child_set = list(self.get_all_children().values())]. *)
Definition childs (self : Hierarchy) : list Hierarchy :=
  flat_map get_children (get_all_children self).*2.

(** The [while len(parent_stack) != 0] loop of [get_flat_body]. *)
Fixpoint get_flat_body_loop (bound : nat) (self : Hierarchy)
    (parent_stack closed_set : list Hierarchy)
    (body_list : list (list BRepBody.t)) : outcome (list (list BRepBody.t)) :=
  match parent_stack with
  | [] => Done body_list
  | tmp :: parent_stack =>
      match bound with
      | O => LoopBound
      | S bound =>
          let closed_set := set_add closed_set tmp in
          let body_list :=
            match Occurrence.bRepBodies (component tmp) with
            | [] => body_list
            | bodies => body_list ++ [bodies]
            end in
          let parent_stack :=
            match get_children tmp with
            | [] => parent_stack
            | _ =>
                set_update parent_stack
                  (filter (λ _c, ¬ existsb (same_node _c) closed_set) (childs self))
            end in
          get_flat_body_loop bound self parent_stack closed_set body_list
      end
  end.

(** [Hierarchy.get_flat_body]. *)
Definition get_flat_body (self : Hierarchy) : outcome (list BRepBody.t) :=
  let child_set := (get_all_children self).*2 in
  let body_list :=
    match child_set with
    | [] => [Occurrence.bRepBodies (component self)]
    | _ => []
    end in
  let parent_stack := set_update [] (childs self) in
  body_list ←
    get_flat_body_loop (S (length parent_stack)) self parent_stack [] body_list;
  Done (concat body_list).

(** [Configurator._iterate_through_occurrences]. *)
Definition _iterate_through_occurrences (self : Configurator) : list Occurrence.t :=
  component <$> (component_map self).*2.

(** [[b for b in bodies if b.isLightBulbOn]]. *)
Definition visible_bodies (oc : Occurrence.t) : list BRepBody.t :=
  filter (λ b, BRepBody.isLightBulbOn b = true) (Occurrence.bRepBodies oc).

(** [mapper[key].extend(bodies)] on a [defaultdict(list)]. *)
Definition extend (mapper : gmap string (list BRepBody.t)) (key : string)
    (bodies : list BRepBody.t) : gmap string (list BRepBody.t) :=
  <[key := default [] (mapper !! key) ++ bodies]> mapper.

(** [Configurator.get_sub_bodies]: the visible bodies that each occurrence
    owns, for the top-level occurrences (when they own one) and for all
    occurrences below them. *)
Definition get_sub_bodies (self : Configurator) : Configurator :=
  set_body_mapper self
    (fold_left
       (λ body_mapper v,
          let top_level_body := visible_bodies (component v) in
          let body_mapper :=
            match top_level_body with
            | [] => body_mapper
            | _ => extend body_mapper (Occurrence.entityToken (component v))
                     top_level_body
            end in
          fold_left
            (λ body_mapper cur,
               extend body_mapper (Occurrence.entityToken (component cur))
                 (visible_bodies (component cur)))
            (descendants v) body_mapper)
       (Component.occurrences (root self)) ∅).

(** [Configurator.get_scene_configuration]; the root node wraps the root
    component and its children are the top-level occurrences. *)
Definition get_scene_configuration (self : Configurator) : Configurator :=
  get_sub_bodies
    (set_component_map self (all_children (Component.occurrences (root self)))).

(** [Configurator._base]. *)
Definition _base (self : Configurator) : outcome Configurator :=
  let self :=
    match find Occurrence.isGrounded (_iterate_through_occurrences self) with
    | Some oc => set_base_link self (Some oc)
    | None => self
    end in
  match base_link self with
  | None => Fatal NoGroundedOccurrence
  | Some base =>
      Done (set_names self
              (<[Occurrence.entityToken base := "base_link"]> (links_by_token self))
              (<["base_link" := base]> (links_by_name self)))
  end.

(** *** Physical properties and links *)

(** Lines 347-360 of [_get_inertia]: the mass of an occurrence, less the
    mass of the bodies of [get_flat_body] whose light bulb is off. *)
Definition subtract_hidden (mass : float) (body_lst : list BRepBody.t) : float :=
  fold_left
    (λ mass body,
       if negb (BRepBody.isLightBulbOn body)
       then (mass - BRepBody.mass body)%float else mass)
    body_lst mass.

Definition corrected_mass (self : Configurator) (oc : Occurrence.t) : outcome float :=
  node ←
    match dict_get (component_map self) (Occurrence.entityToken oc) with
    | Some node => Done node
    | None => Raised KeyError
    end;
  body_lst ← get_flat_body node;
  Done (subtract_hidden (Occurrence.mass oc) body_lst).

(** [Configurator._get_inertia], with the entries ['name'] and ['mass'] of
    its result.  The entries ['center_of_mass'] and ['inertia'] are computed
    on the way, the second by [transforms.origin2center_of_mass], which is
    not under src/; they are handed to [parts.Link] only and are left out of
    the result. *)
Definition _get_inertia (oc : Occurrence.t) (self : Configurator)
  : outcome (string * float * Configurator) :=
  let '(occ_name, self) := get_name oc self in
  mass ← corrected_mass self oc;
  transform ←
    match invert (Occurrence.transform2 oc) with
    | Some transform => Done transform
    | None => Fatal (InverseTransformFailed (Occurrence.name oc))
    end;
  _ ← match point_transformBy (Occurrence.centerOfMass oc) transform with
      | Some center_of_mass => Done center_of_mass
      | None => Fatal (CenterOfMassTransformFailed (Occurrence.name oc))
      end;
  token_name ← subscript (links_by_token self) (Occurrence.entityToken oc);
  _ ← subscript (link_origins self) token_name;
  _ ← (if (Occurrence.xyzMomentsOfInertia oc).1 then Done ()
       else Fatal (MomentsOfInertiaFailed (Occurrence.name oc)));
  Done (occ_name, mass, self).

(** [Configurator.__add_link].  The call [parts.Link(...)] of lines 518 to
    527 gives ten arguments by keyword and none for the parameter [visible]
    of [Link.__init__] (parts.py, line 130), which has no default: once the
    lines before it have passed, the call raises a [TypeError], and the
    assignment to [self.links] of line 528 is not reached. *)
Definition add_link (occ : Occurrence.t) (self : Configurator)
  : outcome Configurator :=
  '(inertia_name, inertia_mass, self) ← _get_inertia occ self;
  urdf_origin ← subscript (link_origins self) inertia_name;
  inv ← assert_some (invert urdf_origin);
  Raised TypeError.

(** *** Materials *)

(** [Configurator.__get_appearance]: the name of the chosen appearance and
    its first colour property, or [(None, None)].  [occ.bRepBodies] is
    true when the occurrence owns a body. *)
Definition first_color (properties : list Property) : option Property :=
  find (λ prop, match prop with ColorProperty _ _ _ _ => true | _ => false end)
    properties.

Definition chosen_appearance (occ : Occurrence.t) : option Appearance.t :=
  match Occurrence.appearance occ with
  | Some appearance => Some appearance
  | None =>
      match Occurrence.bRepBodies occ with
      | _ :: _ =>
          match find (λ body, bool_decide (is_Some (BRepBody.appearance body)))
                  (Occurrence.bRepBodies occ) with
          | Some body => BRepBody.appearance body
          | None => None
          end
      | [] => Occurrence.material occ
      end
  end.

Definition get_appearance (occ : Occurrence.t) : option (string * Property) :=
  match chosen_appearance occ with
  | Some appearance =>
      match first_color (Appearance.appearanceProperties appearance) with
      | Some prop => Some (Appearance.name appearance, prop)
      | None => None
      end
  | None => None
  end.

(** [red/255]: the quotient of two small integers as a float. *)
Definition channel (v : Z) : float := (of_uint63 (Uint63.of_Z v) / 255)%float.

(** The body of the loop of [_materials]. *)
Definition material_of (occ : Occurrence.t) (self : Configurator) : Configurator :=
  let '(material, self) :=
    match get_appearance occ with
    | Some (prop_name, ColorProperty red green blue opacity) =>
        let color_name := format_name (convert_german prop_name) in
        (color_name,
         set_color_dict self
           (<[color_name := ColorRGBA (channel red) (channel green)
                              (channel blue) (channel opacity)]> (color_dict self)))
    | _ => ("silver_default", self)
    end in
  let '(occ_name, self) := get_name occ self in
  set_material_dict self (<[format_name occ_name := material]> (material_dict self)).

(** [Configurator._materials]. *)
Definition _materials (self : Configurator) : Configurator :=
  let self :=
    set_color_dict self
      (<["silver_default" := ColorLiteral "0.700 0.700 0.700 1.000"]> (color_dict self)) in
  fold_left (λ self occ, material_of occ self) (_iterate_through_occurrences self) self.

(** *** The kinematic tree *)

(** The first loop of [_build]: the visible bodies of every occurrence,
    by the formatted name of the occurrence.  (The names of the mesh
    files, [body_dict_urdf], are not modelled.) *)
Definition collect_bodies (oc : Occurrence.t) (self : Configurator) : Configurator :=
  let '(occ_name, self) := get_name oc self in
  let oc_name := format_name occ_name in
  let body_lst := default [] (body_mapper self !! Occurrence.entityToken oc) in
  set_body_dict self
    (fold_left
       (λ body_dict body,
          if BRepBody.isLightBulbOn body then extend body_dict oc_name [body]
          else body_dict)
       body_lst (body_dict self)).

(** [occurrences]: the names of the joints at each occurrence. *)
Definition append_name (occurrences : gmap string (list string))
    (key joint_name : string) : gmap string (list string) :=
  <[key := default [] (occurrences !! key) ++ [joint_name]]> occurrences.

Definition incidence (joints_dict : list (string * JointInfo.t))
  : gmap string (list string) :=
  fold_left
    (λ occurrences item,
       append_name
         (append_name occurrences (JointInfo.parent item.2) item.1)
         (JointInfo.child item.2) item.1)
    joints_dict ∅.

(** Lines 626-636: the occurrence on the other side of [joint] seen from
    [occ_name], or [None] where the loop says [continue]. *)
Definition neighbor (grounded_occ : gset string) (occ_name : string)
    (joint : JointInfo.t) : outcome (option string) :=
  if decide (JointInfo.parent joint = occ_name) then
    let child_name := JointInfo.child joint in
    if decide (child_name ∈ grounded_occ) then Done None
    else Done (Some child_name)
  else if decide (JointInfo.child joint = occ_name) then
    if decide (JointInfo.parent joint ∉ grounded_occ) then
      Done (Some (JointInfo.parent joint))
    else Done None
  else Raised AssertionError.

(** Lines 640-648: the absolute pose of a new neighbour. *)
Definition child_pose (joint : JointInfo.t) (child_origin : Matrix3D.t)
  : outcome Matrix3D.t :=
  if decide (JointInfo.type joint ≠ "fixed") then
    let '(_, xa, ya, za) := Matrix3D.getAsCoordinateSystem child_origin in
    assert_some (Matrix3D.setWithCoordinateSystem (JointInfo.origin joint) xa ya za)
  else Done child_origin.

(** Lines 625-671, the body of [for joint_name in occurrences[occ_name]] up
    to the call of [__add_link]: the state, the new boundary and the new
    neighbour, or [None] for the neighbour where the loop says [continue]. *)
Definition examine_joint (grounded_occ : gset string) (occ_name joint_name : string)
    (st : Configurator * gset string)
  : outcome (Configurator * gset string * option string) :=
  let '(self, new_boundary) := st in
  joint ←
    match dict_get (joints_dict self) joint_name with
    | Some joint => Done joint
    | None => Raised KeyError
    end;
  found ← neighbor grounded_occ occ_name joint;
  match found with
  | None => Done (self, new_boundary, None)
  | Some child_name =>
      let new_boundary := new_boundary ∪ {[child_name]} in
      child_occ ← subscript (links_by_name self) child_name;
      parent_origin ← subscript (link_origins self) occ_name;
      child_origin ← child_pose joint (Occurrence.transform2 child_occ);
      let self :=
        set_link_origins self (<[child_name := child_origin]> (link_origins self)) in
      t ← assert_some (invert parent_origin);
      _ ← assert_some (vector_transformBy (Matrix3D.translation child_origin) t);
      ct ← assert_some (transformBy child_origin t);
      let xyz := (λ c, c * scale self)%float <$> Vector3D.asArray (Matrix3D.translation ct) in
      let rpy := so3_to_euler ct in
      let self :=
        set_joints self
          (<[JointInfo.name joint :=
               Joint.mk (JointInfo.name joint) xyz rpy (JointInfo.axis joint)
                 occ_name child_name (JointInfo.type joint)
                 (JointInfo.upper_limit joint) (JointInfo.lower_limit joint)]>
             (joints self)) in
      Done (self, new_boundary, Some child_name)
  end.

(** The body of [for joint_name in occurrences[occ_name]]: lines 625-671
    and, for a new neighbour, line 673. *)
Definition visit_joint (grounded_occ : gset string) (occ_name joint_name : string)
    (st : Configurator * gset string) : outcome (Configurator * gset string) :=
  '(self, new_boundary, found) ← examine_joint grounded_occ occ_name joint_name st;
  match found with
  | None => Done (self, new_boundary)
  | Some child_name =>
      child_occ ← subscript (links_by_name self) child_name;
      self ← add_link child_occ self;
      Done (self, new_boundary)
  end.

(** One turn of [while boundary]: the loop over the boundary. *)
Definition bfs_pass (occurrences : gmap string (list string))
    (grounded_occ boundary : gset string) (self : Configurator)
  : outcome (Configurator * gset string) :=
  for_each
    (λ occ_name st,
       for_each (visit_joint grounded_occ occ_name)
         (default [] (occurrences !! occ_name)) st)
    (elements boundary) (self, ∅).

(** [while boundary: ...]; the result is the state and [grounded_occ]. *)
Fixpoint bfs (bound : nat) (occurrences : gmap string (list string))
    (grounded_occ boundary : gset string) (self : Configurator)
  : outcome (Configurator * gset string) :=
  if decide (boundary = ∅) then Done (self, grounded_occ)
  else
    match bound with
    | O => LoopBound
    | S bound =>
        '(self, new_boundary) ← bfs_pass occurrences grounded_occ boundary self;
        bfs bound occurrences (grounded_occ ∪ new_boundary) new_boundary self
    end.

(** Lines 678-693: the sanity check that closes [_build]. *)
Definition sanity_sets (robot_name : string) (grounded_occ : gset string)
    (self : Configurator) : gset string * gset string :=
  fold_left
    (λ sets component,
       let '(not_in_joints, unreachable) := sets in
       if Occurrence.isLightBulbOn component
          && bool_decide (is_Some (body_dict self !! robot_name))
       then
         match links_by_token self !! Occurrence.entityToken component with
         | None => (not_in_joints ∪ {[Occurrence.name component]}, unreachable)
         | Some link_name =>
             if decide (link_name ∉ grounded_occ)
             then (not_in_joints, unreachable ∪ {[Occurrence.name component]})
             else sets
         end
       else sets)
    (_iterate_through_occurrences self) (∅, ∅).

Definition sanity_check (robot_name : string) (grounded_occ : gset string)
    (self : Configurator) : outcome Configurator :=
  let '(not_in_joints, unreachable) := sanity_sets robot_name grounded_occ self in
  if decide (not_in_joints ≠ ∅ ∨ unreachable ≠ ∅)
  then Fatal (NotAllIncluded not_in_joints unreachable)
  else Done self.

(** The bound given to [bfs]: every turn but the last grounds an occurrence
    that a joint names, and a joint names two. *)
Definition bfs_bound (self : Configurator) : nat :=
  S (S (2 * length (joints_dict self))).

(** Lines 573-618 of [_build]: the robot's name, the joints at each
    occurrence, and the state with the bodies collected and the origin of
    the base link set. *)
Definition build_prepare (self : Configurator)
  : outcome (string * gmap string (list string) * Configurator) :=
  robot_name ← name self;
  let self := set_link_origins (set_body_dict self ∅) ∅ in
  let self :=
    fold_left (λ self oc, collect_bodies oc self) (_iterate_through_occurrences self) self in
  let occurrences := incidence (joints_dict self) in
  base ← assert_some (base_link self);
  let self :=
    set_link_origins self
      (<["base_link" := Occurrence.transform2 base]> (link_origins self)) in
  Done (robot_name, occurrences, self).

(** [Configurator._build] up to the loop [while boundary]: lines 573-618
    and the link of the base link, line 619. *)
Definition build_start (self : Configurator)
  : outcome (string * gmap string (list string) * Configurator) :=
  '(robot_name, occurrences, self) ← build_prepare self;
  base ← assert_some (base_link self);
  self ← add_link base self;
  Done (robot_name, occurrences, self).

(** [Configurator._build]. *)
Definition _build (self : Configurator) : outcome Configurator :=
  '(robot_name, occurrences, self) ← build_start self;
  let grounded_occ : gset string := {["base_link"]} in
  '(self, grounded_occ) ←
    bfs (bfs_bound self) occurrences grounded_occ grounded_occ self;
  sanity_check robot_name grounded_occ self.

(** [Configurator.parse]. *)
Definition parse (self : Configurator) : outcome Configurator :=
  self ← _base self;
  self ← _joints self;
  _build (_materials self).

End parser.

(** ** [parts.Joint.joint_xml] *)

(** The value of an XML attribute: a string, [str(f)] of a float,
    [' '.join([str(_) for _ in fs])] of a sequence of floats, or the same
    of a roll-pitch-yaw triple. *)
Inductive AttrValue :=
| AStr (s : string)
| AFloat (f : float)
| AFloats (fs : list float)
| AEuler (e : Euler).

(** An [xml.etree.ElementTree.Element]: tag, attributes, sub-elements. *)
Inductive Element :=
  mkElement (tag : string) (attrib : list (string * AttrValue)) (sub : list Element).

Definition tag (e : Element) : string := match e with mkElement t _ _ => t end.
Definition attrib (e : Element) : list (string * AttrValue) :=
  match e with mkElement _ a _ => a end.
Definition sub (e : Element) : list Element := match e with mkElement _ _ s => s end.

(** The sub-elements of [e] with the given tag. *)
Definition findall (e : Element) (t : string) : list Element :=
  filter (λ c, tag c = t) (sub e).

Section parts.
Context `{Utils}.

(** The element that [Joint.joint_xml] builds; the property returns its
    pretty-printed text. *)
Definition joint_xml (self : Joint.t) : Element :=
  let origin :=
    mkElement "origin"
      [("xyz", AFloats (Joint.xyz self)); ("rpy", AEuler (Joint.rpy self))] [] in
  let parent :=
    mkElement "parent" [("link", AStr (format_name (Joint.parent self)))] [] in
  let child :=
    mkElement "child" [("link", AStr (format_name (Joint.child self)))] [] in
  let axis :=
    if bool_decide (Joint.type self = "revolute")
       || bool_decide (Joint.type self = "continuous")
       || bool_decide (Joint.type self = "prismatic")
    then [mkElement "axis" [("xyz", AFloats (Joint.axis self))] []]
    else [] in
  let limit :=
    if bool_decide (Joint.type self = "revolute")
       || bool_decide (Joint.type self = "prismatic")
    then [mkElement "limit"
            [("upper", AFloat (Joint.upper_limit self));
             ("lower", AFloat (Joint.lower_limit self));
             ("effort", AFloat Joint.effort_limit);
             ("velocity", AFloat Joint.vel_limit)] []]
    else [] in
  mkElement "joint"
    [("name", AStr (format_name (Joint.name self))); ("type", AStr (Joint.type self))]
    ([origin; parent; child] ++ axis ++ limit).

End parts.

(** ** Reference collaborators, for running the model *)

(** Modelled from the spec: [utils.rename_if_duplicate] is not under src/;
    when the candidate name is taken it "appends a deterministic numeric
    suffix (first unused integer) until unique". *)
Definition candidate (input : string) (i : nat) : string :=
  match i with
  | O => input
  | S k => input +:+ "_" +:+ pretty k
  end.

Fixpoint first_unused (input : string) (keys : gset string) (bound i : nat) : string :=
  match bound with
  | O => candidate input i
  | S bound =>
      if decide (candidate input i ∈ keys) then first_unused input keys bound (S i)
      else candidate input i
  end.

Definition ref_rename_if_duplicate (input : string) (keys : gset string) : string :=
  first_unused input keys (size keys) 0.

(** Modelled from the spec: [utils.format_name] is not under src/; it is
    "sanitizing to an identifier-safe string".  Letters, digits and the
    underscore are kept, every other character becomes an underscore. *)
Definition is_identifier_char (a : ascii) : bool :=
  let n := Ascii.nat_of_ascii a in
  ((48 <=? n) && (n <=? 57) || (65 <=? n) && (n <=? 90)
   || (97 <=? n) && (n <=? 122) || (n =? 95))%nat.

Fixpoint ref_format_name (s : string) : string :=
  match s with
  | EmptyString => EmptyString
  | String a s' =>
      String (if is_identifier_char a then a else "_"%char) (ref_format_name s')
  end.

(** Modelled from the spec: [utils.convert_german] is not under src/; it is
    "transliterating non-ASCII characters", and leaves ASCII names as they
    are.  The names of this file are ASCII. *)
Definition ref_convert_german (s : string) : string := s.

#[local] Instance RefUtils : Utils :=
  {| rename_if_duplicate := ref_rename_if_duplicate;
     format_name := ref_format_name;
     convert_german := ref_convert_german |}.

(** A host for rigid transforms: the inverse of a frame with orthonormal
    axes is the transposed rotation with the origin carried back, and
    [transformBy] composes a frame with a second one applied after it. *)
Definition dot (a : Vector3D.t) (x y z : float) : float :=
  (Vector3D.x a * x + Vector3D.y a * y + Vector3D.z a * z)%float.

Definition ref_invert (m : Matrix3D.t) : option Matrix3D.t :=
  let '(o, xa, ya, za) := Matrix3D.getAsCoordinateSystem m in
  let ox := Point3D.x o in let oy := Point3D.y o in let oz := Point3D.z o in
  Some (Matrix3D.mk
          (Point3D.mk (- dot xa ox oy oz) (- dot ya ox oy oz) (- dot za ox oy oz))
          (Vector3D.mk (Vector3D.x xa) (Vector3D.x ya) (Vector3D.x za))
          (Vector3D.mk (Vector3D.y xa) (Vector3D.y ya) (Vector3D.y za))
          (Vector3D.mk (Vector3D.z xa) (Vector3D.z ya) (Vector3D.z za)))%float.

(** The rotation of [t] applied to the coordinates [(x, y, z)]. *)
Definition rotate (t : Matrix3D.t) (x y z : float) : Vector3D.t :=
  let xa := Matrix3D.xAxis t in
  let ya := Matrix3D.yAxis t in
  let za := Matrix3D.zAxis t in
  (Vector3D.mk
     (Vector3D.x xa * x + Vector3D.x ya * y + Vector3D.x za * z)
     (Vector3D.y xa * x + Vector3D.y ya * y + Vector3D.y za * z)
     (Vector3D.z xa * x + Vector3D.z ya * y + Vector3D.z za * z))%float.

Definition ref_vector_transformBy (v : Vector3D.t) (t : Matrix3D.t)
  : option Vector3D.t :=
  Some (rotate t (Vector3D.x v) (Vector3D.y v) (Vector3D.z v)).

Definition ref_point_transformBy (p : Point3D.t) (t : Matrix3D.t) : option Point3D.t :=
  let r := rotate t (Point3D.x p) (Point3D.y p) (Point3D.z p) in
  Some (Point3D.mk (Vector3D.x r + Point3D.x (Matrix3D.origin t))
                   (Vector3D.y r + Point3D.y (Matrix3D.origin t))
                   (Vector3D.z r + Point3D.z (Matrix3D.origin t)))%float.

Definition ref_transformBy (m t : Matrix3D.t) : option Matrix3D.t :=
  let o := Matrix3D.origin m in
  let r := rotate t (Point3D.x o) (Point3D.y o) (Point3D.z o) in
  let rot (a : Vector3D.t) := rotate t (Vector3D.x a) (Vector3D.y a) (Vector3D.z a) in
  Some (Matrix3D.mk
          (Point3D.mk (Vector3D.x r + Point3D.x (Matrix3D.origin t))
                      (Vector3D.y r + Point3D.y (Matrix3D.origin t))
                      (Vector3D.z r + Point3D.z (Matrix3D.origin t)))
          (rot (Matrix3D.xAxis m)) (rot (Matrix3D.yAxis m)) (rot (Matrix3D.zAxis m)))%float.

#[local] Instance RefHost : Host :=
  {| invert := ref_invert;
     transformBy := ref_transformBy;
     vector_transformBy := ref_vector_transformBy;
     point_transformBy := ref_point_transformBy |}.

(** ** Sample designs *)

(** A frame with the axes of the world, at [(x, y, z)]. *)
Definition frame (x y z : float) : Matrix3D.t :=
  Matrix3D.mk (Point3D.mk x y z)
    (Vector3D.mk 1 0 0) (Vector3D.mk 0 1 0) (Vector3D.mk 0 0 1).

Definition visible_body : BRepBody.t := BRepBody.mk "Body1" true 1 None.
Definition hidden_body : BRepBody.t := BRepBody.mk "Body2" false 2 None.

Definition sample_occurrence (token name : string) (grounded : bool)
    (transform : Matrix3D.t) (bodies : list BRepBody.t) (mass : float)
  : Occurrence.t :=
  Occurrence.mk token name true grounded transform bodies None None mass
    (Matrix3D.origin transform) (true, [1; 1; 1; 0; 0; 0]%float).

Definition base : Occurrence.t :=
  sample_occurrence "token0" "base" true (frame 0 0 0) [visible_body] 1.
Definition arm : Occurrence.t :=
  sample_occurrence "token1" "arm" false (frame 1 0 0) [visible_body] 1.
Definition hand : Occurrence.t :=
  sample_occurrence "token2" "hand" false (frame 2 0 0) [visible_body] 1.

Definition z_axis : Vector3D.t := Vector3D.mk 0 0 1.

(** A healthy revolute joint between [one] and [two] about the z axis. *)
Definition revolute_joint (name : string) (one two : Occurrence.t)
    (origin_one origin_two : Geometry) (minimum maximum : float) : HostJoint.t :=
  HostJoint.mk name HealthyFeatureHealthState true
    (RevoluteJointMotion z_axis (JointLimits.mk true true maximum minimum))
    one two origin_one origin_two.


Definition sample_root : Component.t := Component.mk "robot" [] [] [].

(** A configurator for a document in centimetres exported in metres. *)
Definition sample_config : Configurator := init sample_root 0.01 0.01.

(** One run of the exporter on a design in centimetres, exported in
    metres: [get_scene_configuration] and then [parse], as [Manager.run]
    calls them. *)
Definition run (design : Component.t) : outcome Configurator :=
  parse (get_scene_configuration (init design 0.01 0.01)).

(** The state of a run when it comes to line 619 of [_build], the first
    call of [__add_link]: the names are given, the records, the materials
    and the bodies are collected, and the origin of the base link is set. *)
Definition before_first_link (design : Component.t) : outcome Configurator :=
  self ← _base (get_scene_configuration (init design 0.01 0.01));
  self ← _joints self;
  '(_, _, self) ← build_prepare (_materials self);
  Done self.

Definition state_of (o : outcome Configurator) : Configurator :=
  match o with Done self => self | _ => sample_config end.

(** The state of a run after [_base] and [_joints]. *)
Definition after_joints (design : Component.t) : outcome Configurator :=
  self ← _base (get_scene_configuration (init design 0.01 0.01));
  _joints self.

(** The swapped scenario: the hinge lists the arm first and the grounded
    base second, so its record declares parent [arm] and child [base_link]. *)
Definition swapped_design : Component.t :=
  Component.mk "robot v1" [HNode base []; HNode arm []]
    [revolute_joint "hinge" arm base
       (APoint3D (Point3D.mk 1 0 0.5))
       (JointOrigin (JointGeometry (APoint3D (Point3D.mk 1 0 0.5)))) 0 1]
    [].

Definition swapped_hinge : JointInfo.t :=
  JointInfo.mk "hinge" "arm" "base_link" "revolute" (Point3D.mk 1 0 0.5)
    [0; 0; 1]%float 1 0.

(** An occurrence without an appearance of its own, whose one body has
    none either, in a component whose material is blue. *)
Definition blue : Appearance.t :=
  Appearance.mk "Steel - Blue" [OtherProperty; ColorProperty 0 0 255 255].

Definition plate : Occurrence.t :=
  Occurrence.mk "token3" "plate" true false (frame 0 0 0) [visible_body]
    None (Some blue) 1 (Point3D.mk 0 0 0) (true, [1; 1; 1; 0; 0; 0]%float).

(** A gearbox without bodies of its own; the gear below it owns one
    hidden body of mass 2.  The host reports the mass 5 for the gearbox. *)
Definition gear : Occurrence.t :=
  sample_occurrence "token5" "gear" false (frame 0 0 1) [hidden_body] 2.
Definition gearbox : Occurrence.t :=
  sample_occurrence "token4" "gearbox" false (frame 0 0 1) [] 5.
Definition gearbox_node : Hierarchy := HNode gearbox [HNode gear []].

Definition gearbox_design : Component.t :=
  Component.mk "robot" [HNode base []; gearbox_node] []
    [RigidGroup.mk "rigid" [base; gearbox]].

(** A grounded base and one more visible occurrence with a visible body,
    which no joint and no rigid group mentions. *)
Definition isolated_design : Component.t :=
  Component.mk "robot" [HNode base []; HNode arm []] [] [].

(** The same assembly in a document that is named like the isolated
    occurrence. *)
Definition isolated_namesake_design : Component.t :=
  Component.mk "arm v2" [HNode base []; HNode arm []] [] [].

(** ** Definitions used in the statements *)




(** The appearance of an occurrence in the words of the specification:
    the "occurrence's own appearance, else the first owned body with an
    appearance, else the parent component's material appearance". *)
Definition appearance_by_priority (occ : Occurrence.t) : option Appearance.t :=
  match Occurrence.appearance occ with
  | Some appearance => Some appearance
  | None =>
      match find (λ body, bool_decide (is_Some (BRepBody.appearance body)))
              (Occurrence.bRepBodies occ) with
      | Some body => BRepBody.appearance body
      | None => Occurrence.material occ
      end
  end.

(** An appearance, when there is one, has no colour property. *)
Definition colorless (o : option Appearance.t) : Prop :=
  ∀ appearance, o = Some appearance →
    first_color (Appearance.appearanceProperties appearance) = None.

(** The nodes whose bodies [get_flat_body] collects in its loop. *)
Definition flat_body_nodes (self : Hierarchy) : list Hierarchy :=
  set_update [] (childs self).

(** The bodies "under that occurrence's subtree", in the words of the
    specification and of the claim: the occurrence's own bodies and those
    of all the occurrences below it. *)
Definition subtree_bodies (node : Hierarchy) : list BRepBody.t :=
  Occurrence.bRepBodies (component node)
  ++ flat_map (λ d, Occurrence.bRepBodies (component d)) (descendants node).


(** ** Definitions used in the statements on the steps of a run *)


(** How a computation may end: with a result, with a Python exception, or
    with one of the [allowed] fatal errors; not at the bound of a loop. *)
Definition ends_with {S : Type} (allowed : fatal_error → Prop) (o : outcome S) : Prop :=
  match o with
  | Done _ | Raised _ => True
  | Fatal msg => allowed msg
  | LoopBound => False
  end.


(** The fatal errors of [_joints]. *)
Definition joint_refused (msg : fatal_error) : Prop :=
  match msg with
  | UnexpectedHealthState _ _ | NoOrigin _ | OriginsDoNotCoincide _ _ _ _ _ => True
  | _ => False
  end.

(** What one state keeps of an earlier one: the records, the scene, the
    collected bodies, and the names given so far. *)
Definition extends (self self' : Configurator) : Prop :=
  joints_dict self' = joints_dict self
  ∧ component_map self' = component_map self
  ∧ body_dict self' = body_dict self
  ∧ root self' = root self
  ∧ ∀ token link_name,
      links_by_token self !! token = Some link_name →
      links_by_token self' !! token = Some link_name.

(** Every occurrence of the scene has a name. *)
Definition all_named (self : Configurator) : Prop :=
  ∀ oc, oc ∈ _iterate_through_occurrences self →
        is_Some (links_by_token self !! Occurrence.entityToken oc).

(** The two name tables agree: the name of a token leads back to an
    occurrence with that token. *)
Definition names_consistent (self : Configurator) : Prop :=
  ∀ token link_name,
    links_by_token self !! token = Some link_name →
    ∃ oc, links_by_name self !! link_name = Some oc
          ∧ Occurrence.entityToken oc = token.

(** The records are stored under their own names, and no name twice. *)
Definition keyed (joints_dict : list (string * JointInfo.t)) : Prop :=
  NoDup joints_dict.*1
  ∧ ∀ key info, (key, info) ∈ joints_dict → JointInfo.name info = key.

(** ** Definitions used in the statements on the scene, the names and the graph *)

(** The entity token of the occurrence of a node. *)
Definition token_of (node : Hierarchy) : string :=
  Occurrence.entityToken (component node).

(** A string of white space only, and a string without white space. *)
Definition blank (s : string) : Prop :=
  ∀ a, In a (list_ascii_of_string s) → is_space a = true.

Definition spaceless (s : string) : Prop :=
  ∀ a, In a (list_ascii_of_string s) → is_space a = false.

(** The first of a list that satisfies [f]. *)
Definition first_that {A : Type} (f : A → bool) (l : list A) (x : A) : Prop :=
  ∃ i, l !! i = Some x ∧ f x = true
       ∧ ∀ j y, (j < i)%nat → l !! j = Some y → f y = false.

(** The two name tables are inverse to each other. *)
Definition names_bijective (self : Configurator) : Prop :=
  names_consistent self
  ∧ ∀ link_name oc,
      links_by_name self !! link_name = Some oc →
      links_by_token self !! Occurrence.entityToken oc = Some link_name.


(** Every material that an entry of [material_dict] names has a colour. *)
Definition materials_registered (self : Configurator) : Prop :=
  ∀ key material,
    material_dict self !! key = Some material →
    is_Some (color_dict self !! material).

(** The lists of [body_dict] are not empty and hold visible bodies only. *)
Definition only_visible_bodies (body_dict : gmap string (list BRepBody.t)) : Prop :=
  ∀ key bodies,
    body_dict !! key = Some bodies →
    bodies ≠ [] ∧ ∀ body, body ∈ bodies → BRepBody.isLightBulbOn body = true.


(** ** [Configurator.get_joint_preview] and [parts.Link.link_xml] *)

Section preview.
Context `{Utils}.

(** [Configurator.get_joint_preview]: the records of [_joints], and the
    state it leaves. *)
Definition get_joint_preview (self : Configurator)
  : outcome (list (string * JointInfo.t) * Configurator) :=
  self ← _joints self;
  Done (joints_dict self, self).

End preview.

(** A joint that the first loop of [_joints] turns into a record: it is
    healthy and can be read. *)
Definition is_processed (joint : HostJoint.t) : bool :=
  match HostJoint.healthState joint with
  | HealthyFeatureHealthState => HostJoint.isValid joint
  | _ => false
  end.

(** The number of occurrences of the rigid groups past the first of each. *)
Definition group_members (groups : list RigidGroup.t) : nat :=
  list_sum ((λ group, pred (List.length (RigidGroup.occurrences group))) <$> groups).

(** The object [parts.Link]; [body_dict] is the [body_dict_urdf] of the
    parser, the names of the mesh files of each link, and [material_dict]
    maps a link to the ['material'] entry of its dictionary. *)
Module PartsLink.
Record t := mk
  { name : string;
    xyz : list float;
    rpy : Euler;
    center_of_mass : list float;
    sub_folder : string;
    mass : float;
    inertia_tensor : list float;
    body_dict : gmap string (list string);
    sub_mesh : bool;
    material_dict : gmap string string;
    visible : bool }.
End PartsLink.

Section link.
Context `{Utils}.

(** The element [origin] of a visual or a collision, and the element
    [geometry] with the mesh of a file. *)
Definition origin_of (self : PartsLink.t) : Element :=
  mkElement "origin"
    [("xyz", AFloats (PartsLink.xyz self)); ("rpy", AEuler (PartsLink.rpy self))] [].

Definition geometry (scale : string) (self : PartsLink.t) (file : string) : Element :=
  mkElement "geometry" []
    [mkElement "mesh"
       [("filename",
         AStr ("package://" +:+ PartsLink.sub_folder self +:+ format_name file +:+ ".stl"));
        ("scale", AStr (scale +:+ " " +:+ scale +:+ " " +:+ scale))] []].

Definition visual (scale : string) (self : PartsLink.t) (file material : string)
  : Element :=
  mkElement "visual" []
    [origin_of self; geometry scale self file;
     mkElement "material" [("name", AStr material)] []].

Definition collision (scale : string) (self : PartsLink.t) (file : string) : Element :=
  mkElement "collision" [] [origin_of self; geometry scale self file].

(** The element that [Link.link_xml] builds, or [None] where the property
    returns the empty string; [scale] is the class attribute [Link.scale].
    The property first replaces [self.name] by its formatted form, so that
    the name of the mesh file of a link without sub-meshes is formatted
    twice. *)
Definition link_xml (scale : string) (self : PartsLink.t) : outcome (option Element) :=
  let name := format_name (PartsLink.name self) in
  match PartsLink.body_dict self !! name with
  | None => Done None
  | Some bodies =>
      inertia ←
        match PartsLink.inertia_tensor self with
        | ixx :: iyy :: izz :: ixy :: iyz :: ixz :: _ =>
            Done (mkElement "inertia"
                    [("ixx", AFloat ixx); ("iyy", AFloat iyy); ("izz", AFloat izz);
                     ("ixy", AFloat ixy); ("iyz", AFloat iyz); ("ixz", AFloat ixz)] [])
        | _ => Raised IndexError
        end;
      let inertial :=
        mkElement "inertial" []
          [mkElement "origin"
             [("xyz", AFloats (PartsLink.center_of_mass self));
              ("rpy", AEuler (PartsLink.rpy self))] [];
           mkElement "mass" [("value", AFloat (PartsLink.mass self))] [];
           inertia] in
      visuals ←
        (if PartsLink.sub_mesh self then
           Done ((λ body_name, visual scale self body_name "silver") <$> bodies)
         else if PartsLink.visible self then
           material ← subscript (PartsLink.material_dict self) name;
           Done [visual scale self name material]
         else Done []);
      let collisions :=
        if PartsLink.sub_mesh self then
          (λ collision_body, collision scale self collision_body) <$> bodies
        else if PartsLink.visible self then [collision scale self name]
        else [] in
      Done (Some (mkElement "link" [("name", AStr name)]
                    (inertial :: visuals ++ collisions)))
  end.

End link.

(** The number of visuals, and of collisions, of a link. *)
Definition geometries (self : PartsLink.t) (bodies : list string) : nat :=
  if PartsLink.sub_mesh self then List.length bodies
  else if PartsLink.visible self then 1%nat else 0%nat.
(** * Facts on binary64 arithmetic

    They follow from the specification of the primitive floats. *)

Module FloatFacts.
Import SpecFloat FloatAxioms.
Local Open Scope Z_scope.

Lemma Prim2SF_zero : Prim2SF 0%float = S754_zero false.
Proof. reflexivity. Qed.

Lemma Prim2SF_infinity : Prim2SF infinity = S754_infinity false.
Proof. reflexivity. Qed.











Lemma SFeqb_same s m e : SFeqb (S754_finite s m e) (S754_finite s m e) = true.
Proof.
  unfold SFeqb, SFcompare. rewrite Z.compare_refl, Pcompare_refl.
  destruct s; reflexivity.
Qed.





End FloatFacts.

(** * Joint extraction *)

Lemma close_enough_axes (self : Configurator) (a b : Point3D.t) :
  close_enough self a b =
    Done (close_enough_float self (Point3D.x a) (Point3D.x b)
          && close_enough_float self (Point3D.y a) (Point3D.y b)
          && close_enough_float self (Point3D.z a) (Point3D.z b)).
Proof.
  unfold close_enough, close_enough_array. cbn.
  by rewrite andb_true_r, andb_assoc.
Qed.











(** * Names *)

Lemma dict_keys_snoc {A : Type} (d : list (string * A)) (k : string) (v : A) :
  dict_keys (d ++ [(k, v)]) = dict_keys d ∪ {[k]}.
Proof. unfold dict_keys. rewrite fmap_app. apply list_to_set_snoc_L. Qed.

Lemma dict_set_fresh {A : Type} (d : list (string * A)) (k : string) (v : A) :
  k ∉ dict_keys d → dict_set d k v = d ++ [(k, v)].
Proof.
  unfold dict_keys. induction d as [|[k' v'] d IH]; cbn; [done|].
  rewrite elem_of_union, elem_of_singleton.
  intros Hk. rewrite decide_False by (intros ->; apply Hk; by left).
  rewrite IH; [done|]. intros ?. apply Hk. by right.
Qed.

Section names.
Context `{Utils}.

Lemma get_name_joints_dict (oc : Occurrence.t) (self : Configurator) :
  joints_dict (get_name oc self).2 = joints_dict self.
Proof.
  unfold get_name. by destruct (links_by_token self !! Occurrence.entityToken oc).
Qed.

Lemma get_name_registered (oc : Occurrence.t) (self : Configurator) :
  links_by_token (get_name oc self).2 !! Occurrence.entityToken oc
  = Some (get_name oc self).1.
Proof.
  unfold get_name.
  destruct (links_by_token self !! Occurrence.entityToken oc) eqn:Hl; cbn; [done|].
  by rewrite lookup_insert_eq.
Qed.

Lemma get_name_stable (oc : Occurrence.t) (self : Configurator)
    (token link_name : string) :
  links_by_token self !! token = Some link_name →
  links_by_token (get_name oc self).2 !! token = Some link_name.
Proof.
  intros Ht. unfold get_name.
  destruct (links_by_token self !! Occurrence.entityToken oc) eqn:Hl; cbn; [done|].
  rewrite lookup_insert_ne; [done|]. intros <-. congruence.
Qed.

(** One occurrence of a rigid group past the first: one more record, under
    a fresh name, from the group's first occurrence to this one. *)
Lemma process_group_occurrence_spec `{!UtilsFresh}
    (group_name : string) (parent_occ occ : Occurrence.t) (self : Configurator) :
  let self' := process_group_occurrence group_name parent_occ occ self in
  let key := rename_if_duplicate group_name (dict_keys (joints_dict self)) in
  ∃ parent_name child_name,
    joints_dict self' = joints_dict self ++ [(key, JointInfo.fixed key parent_name child_name)]
    ∧ links_by_token self' !! Occurrence.entityToken parent_occ = Some parent_name
    ∧ links_by_token self' !! Occurrence.entityToken occ = Some child_name
    ∧ ∀ token link_name,
        links_by_token self !! token = Some link_name →
        links_by_token self' !! token = Some link_name.
Proof.
  cbn zeta. unfold process_group_occurrence.
  pose proof (get_name_registered parent_occ self) as Hp.
  pose proof (get_name_joints_dict parent_occ self) as Hj1.
  pose proof (get_name_stable parent_occ self) as Hs1.
  destruct (get_name parent_occ self) as [parent_name self1]; cbn in Hp, Hj1, Hs1.
  pose proof (get_name_registered occ self1) as Hc.
  pose proof (get_name_joints_dict occ self1) as Hj2.
  pose proof (get_name_stable occ self1) as Hs2.
  destruct (get_name occ self1) as [child_name self2]; cbn in Hc, Hj2, Hs2.
  exists parent_name, child_name. cbn.
  rewrite Hj2, Hj1. split_and!; [|by apply Hs2|done|by auto].
  apply dict_set_fresh, rename_fresh.
Qed.

Lemma fold_group_occurrences `{!UtilsFresh}
    (group_name : string) (parent_occ : Occurrence.t) (others : list Occurrence.t) :
  ∀ self : Configurator,
    let self' :=
      fold_left (λ self occ, process_group_occurrence group_name parent_occ occ self)
        others self in
    ∃ records : list (string * JointInfo.t),
      joints_dict self' = joints_dict self ++ records
      ∧ length records = length others
      ∧ (∀ token link_name,
           links_by_token self !! token = Some link_name →
           links_by_token self' !! token = Some link_name)
      ∧ ∀ i occ,
          others !! i = Some occ →
          ∃ parent_name child_name,
            let key :=
              rename_if_duplicate group_name
                (dict_keys (joints_dict self ++ take i records)) in
            (records !! i) = Some (key, JointInfo.fixed key parent_name child_name)
            ∧ (key ∉ dict_keys (joints_dict self ++ take i records))
            ∧ links_by_token self' !! Occurrence.entityToken parent_occ = Some parent_name
            ∧ links_by_token self' !! Occurrence.entityToken occ = Some child_name.
Proof.
  induction others as [|occ others IH]; intros self; cbn zeta.
  - exists []. cbn. rewrite app_nil_r. split_and!; [done..|]. by intros ? ? ?.
  - cbn [fold_left].
    destruct (process_group_occurrence_spec group_name parent_occ occ self)
      as (parent_name & child_name & Hj & Hp & Hc & Hs).
    set (self1 := process_group_occurrence group_name parent_occ occ self) in *.
    destruct (IH self1) as (records & Hj' & Hlen & Hs' & Hrec).
    eexists (_ :: records). split_and!.
    + rewrite Hj', Hj, <- app_assoc. done.
    + cbn. by rewrite Hlen.
    + by auto.
    + intros [|i] occ' Hocc'; cbn in Hocc'.
      * injection Hocc' as <-. exists parent_name, child_name.
        cbn. rewrite app_nil_r. split_and!; [done| |by auto..].
        apply rename_fresh.
      * destruct (Hrec i occ' Hocc') as (pn & cn & Hr & Hfresh & Hpn & Hcn).
        exists pn, cn. cbn [take]. cbn zeta in *.
        rewrite Hj, <- app_assoc in Hr, Hfresh. done.
Qed.

End names.

(** The reference [rename_if_duplicate] returns an unused name. *)
Lemma string_length_app (s1 s2 : string) :
  String.length (s1 +:+ s2) = String.length s1 + String.length s2.
Proof.
  induction s1 as [|a s1 IH]; [done|].
  change (S (String.length (s1 +:+ s2)) = S (String.length s1 + String.length s2)).
  by rewrite IH.
Qed.

Lemma candidate_inj (input : string) : Inj (=) (=) (candidate input).
Proof.
  intros [|i] [|j] Heq; cbn in Heq.
  - done.
  - apply (f_equal String.length) in Heq.
    rewrite !string_length_app in Heq. cbn in Heq. lia.
  - apply (f_equal String.length) in Heq.
    rewrite !string_length_app in Heq. cbn in Heq. lia.
  - f_equal. apply String.app_inj in Heq. apply String.app_inj in Heq.
    by apply (inj pretty).
Qed.

Lemma first_unused_fresh (input : string) (keys : gset string) :
  ∀ bound i,
    (∀ j, j < i → candidate input j ∈ keys) →
    i + bound = size keys →
    first_unused input keys bound i ∉ keys.
Proof.
  induction bound as [|bound IH]; intros i Hbelow Hsize; cbn.
  - intros Hi.
    assert (Hsub : list_to_set (candidate input <$> seq 0 (S i)) ⊆ keys).
    { intros x. rewrite elem_of_list_to_set, list_elem_of_fmap.
      intros (j & -> & Hj). apply elem_of_seq in Hj.
      destruct (decide (j = i)) as [->|]; [done|]. apply Hbelow. lia. }
    apply subseteq_size in Hsub.
    rewrite size_list_to_set in Hsub.
    + rewrite length_fmap, length_seq in Hsub. lia.
    + apply NoDup_fmap_2; [apply candidate_inj|apply NoDup_seq].
  - destruct (decide (candidate input i ∈ keys)) as [Hi|Hi]; [|done].
    apply IH; [|lia]. intros j Hj.
    destruct (decide (j = i)) as [->|]; [done|]. apply Hbelow. lia.
Qed.

#[local] Instance ref_rename_fresh : @UtilsFresh RefUtils.
Proof.
  intros input keys. cbn. unfold ref_rename_if_duplicate.
  apply first_unused_fresh; [lia|done].
Qed.

(** * Rigid groups *)

(** C6: a rigid group over [A :: others] adds one fixed record per
    occurrence of [others] ([n - 1] records for [n] occurrences), in their
    order; each has the group's first occurrence [A] as parent and its own
    occurrence as child, and is named by [rename_if_duplicate] from the
    group's name, a name that is not yet a key. *)
Theorem rigid_group_adds_fixed_joints `{Utils} `{!UtilsFresh}
    (group : RigidGroup.t) (A : Occurrence.t) (others : list Occurrence.t)
    (self : Configurator) :
  RigidGroup.occurrences group = A :: others →
  ∃ records : list (string * JointInfo.t),
    joints_dict (process_group group self) = joints_dict self ++ records
    ∧ length records = length others
    ∧ ∀ i occ,
        others !! i = Some occ →
        ∃ parent_name child_name,
          let key :=
            rename_if_duplicate (RigidGroup.name group)
              (dict_keys (joints_dict self ++ take i records)) in
          (records !! i)
          = Some (key, JointInfo.mk key parent_name child_name "fixed"
                         Point3D.create [0; 0; 0]%float 0 0)
          ∧ (key ∉ dict_keys (joints_dict self ++ take i records))
          ∧ links_by_token (process_group group self) !! Occurrence.entityToken A
            = Some parent_name
          ∧ links_by_token (process_group group self) !! Occurrence.entityToken occ
            = Some child_name.
Proof.
  intros Hocc. unfold process_group. rewrite Hocc.
  destruct (fold_group_occurrences (RigidGroup.name group) A others self)
    as (records & Hj & Hlen & _ & Hrec).
  exists records. split_and!; [done..|].
  intros i occ Hi. destruct (Hrec i occ Hi) as (pn & cn & ?). by exists pn, cn.
Qed.

(** The scenario of the specification: a group over three occurrences. *)
Lemma rigid_group_adds_fixed_joints_witness :
  ∃ records : list (string * JointInfo.t),
    joints_dict (process_group (RigidGroup.mk "rigid" [base; arm; hand]) sample_config)
    = joints_dict sample_config ++ records
    ∧ length records = 2.
Proof.
  destruct
    (rigid_group_adds_fixed_joints
       (RigidGroup.mk "rigid" [base; arm; hand]) base [arm; hand] sample_config
       eq_refl)
    as (records & Hj & Hlen & _).
  exists records. split; [exact Hj|exact Hlen].
Defined.

Lemma rigid_group_of_three :
  joints_dict (process_group (RigidGroup.mk "rigid" [base; arm; hand]) sample_config)
  = [("rigid", JointInfo.fixed "rigid" "base" "arm");
     ("rigid_0", JointInfo.fixed "rigid_0" "base" "hand")].
Proof. vm_compute. reflexivity. Qed.

(** * The kinematic tree *)

Lemma bind_done {A B : Type} (m : outcome A) (f : A → outcome B) (b : B) :
  m ≫= f = Done b → ∃ a, m = Done a ∧ f a = Done b.
Proof. destruct m; cbn; [eauto|discriminate..]. Qed.

Ltac bind_inv H a Ha :=
  apply bind_done in H as (a & Ha & H).

Section tree.
Context `{Utils} `{Host}.

(** [__add_link] does not return: what it does not refuse before, the call
    of [parts.Link] refuses. *)
Lemma add_link_never_done (occ : Occurrence.t) (self self' : Configurator) :
  add_link occ self ≠ Done self'.
Proof.
  unfold add_link. intros Hadd.
  bind_inv Hadd r Hr. destruct r as [[n m] self1].
  bind_inv Hadd uo Huo. bind_inv Hadd inv Hinv. discriminate Hadd.
Qed.



End tree.





(** The swapped scenario from the start of a run: the run comes to line
    619 with the hinge recorded from the arm to the base link; there the
    link of the base link is refused, and the run ends.  From the state it
    has reached, lines 625-671 emit the hinge from the base link to the
    arm and put the arm at the hinge's origin. *)
Lemma swapped_run :
  run swapped_design = Raised TypeError
  ∧ ∃ self self' emitted,
      before_first_link swapped_design = Done self
      ∧ dict_get (joints_dict self) "hinge" = Some swapped_hinge
      ∧ examine_joint {["base_link"]} "base_link" "hinge" (self, ∅)
        = Done (self', {["arm"]}, Some "arm")
      ∧ joints self' !! "hinge" = Some emitted
      ∧ Joint.parent emitted = "base_link"
      ∧ Joint.child emitted = "arm"
      ∧ Joint.xyz emitted = [0.01; 0; 0.005]%float
      ∧ link_origins self' !! "arm" = Some (frame 1 0 0.5).
Proof.
  split; [vm_compute; reflexivity|].
  eexists _, _, _. split; [vm_compute; reflexivity|].
  split; [vm_compute; reflexivity|].
  split; [vm_compute; reflexivity|].
  split; [vm_compute; reflexivity|].
  repeat split; vm_compute; reflexivity.
Qed.

(** * Serialized joints *)

(** C8, as stated, fails: a ball joint is given the type ["Ball"], which is
    not fixed, and the element of a joint of this type has neither an axis
    nor a limit. *)
Lemma ball_joint_has_no_axis_and_no_limit :
  let socket :=
    Joint.mk "socket" [0.01; 0; 0]%float (so3_to_euler (frame 1 0 0))
      [0; 0; 0]%float "base_link" "arm" "Ball" 0 0 in
  joint_type_list !! jointType BallJointMotion = Some "Ball"
  ∧ Joint.type socket ≠ "fixed"
  ∧ findall (joint_xml socket) "axis" = []
  ∧ findall (joint_xml socket) "limit" = [].
Proof.
  cbn zeta. split; [reflexivity|]. split; [discriminate|].
  split; vm_compute; reflexivity.
Qed.

(** C8, amended: the element of a joint has an axis exactly for the kinds
    revolute, continuous and prismatic, and a limit, with the upper and
    lower limits and the default effort and velocity, exactly for the
    kinds revolute and prismatic; so a revolute or prismatic joint has
    both, and a joint of any other kind that extraction produces (fixed,
    Cylinderical, PinSlot, Planner, Ball) has neither. *)
Theorem joint_xml_axis_and_limit `{Utils} (self : Joint.t) :
  findall (joint_xml self) "axis"
  = (if bool_decide (Joint.type self ∈ ["revolute"; "continuous"; "prismatic"])
     then [mkElement "axis" [("xyz", AFloats (Joint.axis self))] []]
     else [])
  ∧ findall (joint_xml self) "limit"
    = (if bool_decide (Joint.type self ∈ ["revolute"; "prismatic"])
       then [mkElement "limit"
               [("upper", AFloat (Joint.upper_limit self));
                ("lower", AFloat (Joint.lower_limit self));
                ("effort", AFloat 100.0);
                ("velocity", AFloat 100.0)] []]
       else [])
  ∧ (Joint.type self ∈ ["fixed"; "Cylinderical"; "PinSlot"; "Planner"; "Ball"] →
     findall (joint_xml self) "axis" = [] ∧ findall (joint_xml self) "limit" = []).
Proof.
  assert (Haxis :
    findall (joint_xml self) "axis"
    = if bool_decide (Joint.type self ∈ ["revolute"; "continuous"; "prismatic"])
      then [mkElement "axis" [("xyz", AFloats (Joint.axis self))] []]
      else []).
  { unfold joint_xml, findall. cbn [sub].
    destruct (decide (Joint.type self = "revolute")) as [->|Hr]; [done|].
    destruct (decide (Joint.type self = "continuous")) as [->|Hc]; [done|].
    destruct (decide (Joint.type self = "prismatic")) as [->|Hp]; [done|].
    rewrite (bool_decide_eq_false_2 _ Hr), (bool_decide_eq_false_2 _ Hc),
      (bool_decide_eq_false_2 _ Hp).
    rewrite (bool_decide_eq_false_2 (_ ∈ _)); [reflexivity|].
    rewrite !elem_of_cons, elem_of_nil. tauto. }
  assert (Hlimit :
    findall (joint_xml self) "limit"
    = if bool_decide (Joint.type self ∈ ["revolute"; "prismatic"])
      then [mkElement "limit"
              [("upper", AFloat (Joint.upper_limit self));
               ("lower", AFloat (Joint.lower_limit self));
               ("effort", AFloat 100.0);
               ("velocity", AFloat 100.0)] []]
      else []).
  { unfold joint_xml, findall. cbn [sub].
    destruct (decide (Joint.type self = "revolute")) as [->|Hr]; [done|].
    destruct (decide (Joint.type self = "prismatic")) as [->|Hp]; [done|].
    rewrite (bool_decide_eq_false_2 _ Hr), (bool_decide_eq_false_2 _ Hp).
    rewrite (bool_decide_eq_false_2 (_ ∈ _)).
    - destruct (bool_decide (Joint.type self = "continuous")); reflexivity.
    - rewrite !elem_of_cons, elem_of_nil. tauto. }
  split; [done|]. split; [done|].
  intros Hty. rewrite Haxis, Hlimit.
  rewrite !elem_of_cons, elem_of_nil in Hty.
  destruct Hty as [->|[->|[->|[->|[->|[]]]]]]; done.
Qed.

(** * Materials *)

Lemma find_first {A : Type} (f : A → bool) (l : list A) (i : nat) (x : A) :
  l !! i = Some x →
  f x = true →
  (∀ j y, j < i → l !! j = Some y → f y = false) →
  find f l = Some x.
Proof.
  revert i. induction l as [|a l IH]; intros [|i] Hi Hx Hbefore; cbn in *; try done.
  - injection Hi as ->. by rewrite Hx.
  - rewrite (Hbefore 0 a) by (done || lia).
    apply (IH i); [done..|].
    intros j y Hj Hy. apply (Hbefore (S j) y); [lia|done].
Qed.

Lemma find_nowhere {A : Type} (f : A → bool) (l : list A) :
  (∀ x, x ∈ l → f x = false) → find f l = None.
Proof.
  induction l as [|a l IH]; intros Hall; cbn; [done|].
  rewrite (Hall a) by left. apply IH. intros x Hx. apply Hall. by right.
Qed.

Lemma chosen_appearance_cases (occ : Occurrence.t) :
  chosen_appearance occ = Occurrence.appearance occ
  ∨ chosen_appearance occ = Occurrence.material occ
  ∨ chosen_appearance occ = None
  ∨ ∃ body, body ∈ Occurrence.bRepBodies occ
            ∧ chosen_appearance occ = BRepBody.appearance body.
Proof.
  unfold chosen_appearance.
  destruct (Occurrence.appearance occ); [by left|].
  destruct (Occurrence.bRepBodies occ) as [|b bodies] eqn:Hb; [by right; left|].
  destruct (find _ (b :: bodies)) as [body|] eqn:Hf; [|by right; right; left].
  right; right; right. exists body. split; [|done].
  apply find_some in Hf as [Hin _]. by apply list_elem_of_In.
Qed.

Section materials.
Context `{Utils}.

Lemma material_of_silver (occ : Occurrence.t) (self : Configurator) :
  get_appearance occ = None →
  material_dict (material_of occ self) !! format_name (get_name occ self).1
  = Some "silver_default"
  ∧ color_dict (material_of occ self) = color_dict self.
Proof.
  intros Hnone. unfold material_of. rewrite Hnone.
  destruct (get_name occ self) as [occ_name self1] eqn:Hn. cbn.
  rewrite lookup_insert_eq. split; [done|].
  unfold get_name in Hn.
  destruct (links_by_token self !! Occurrence.entityToken occ);
    by injection Hn as <- <-.
Qed.

Lemma material_of_keeps_default (occ : Occurrence.t) (self : Configurator) :
  is_Some (color_dict self !! "silver_default") →
  is_Some (color_dict (material_of occ self) !! "silver_default").
Proof.
  intros Hs. unfold material_of.
  assert (Hname : ∀ s, color_dict (get_name occ s).2 = color_dict s).
  { intros s. unfold get_name.
    by destruct (links_by_token s !! Occurrence.entityToken occ). }
  destruct (get_appearance occ) as [[prop_name [r g b o|]]|].
  - specialize (Hname
      (set_color_dict self
         (<[format_name (convert_german prop_name) :=
              ColorRGBA (channel r) (channel g) (channel b) (channel o)]>
            (color_dict self)))).
    destruct (get_name occ _) as [occ_name self1]. cbn in *. rewrite Hname.
    destruct (decide (format_name (convert_german prop_name) = "silver_default"))
      as [->|Hne].
    + rewrite lookup_insert_eq. eauto.
    + by rewrite lookup_insert_ne.
  - specialize (Hname self). destruct (get_name occ self) as [occ_name self1].
    cbn in *. by rewrite Hname.
  - specialize (Hname self). destruct (get_name occ self) as [occ_name self1].
    cbn in *. by rewrite Hname.
Qed.

Lemma materials_default_registered (self : Configurator) :
  is_Some (color_dict (_materials self) !! "silver_default").
Proof.
  unfold _materials.
  set (start := set_color_dict self _).
  assert (Hs : is_Some (color_dict start !! "silver_default")).
  { subst start. cbn. rewrite lookup_insert_eq. eauto. }
  generalize dependent start. intros start.
  generalize (_iterate_through_occurrences start) as occs.
  intros occs. revert start.
  induction occs as [|occ occs IH]; intros start Hs; cbn; [done|].
  apply IH. by apply material_of_keeps_default.
Qed.

End materials.

(** C9, as stated, fails: the plate has no appearance, its body has none,
    and its component's material has a colour; the priority order of the
    claim picks the material, the code picks nothing and the plate becomes
    silver. *)
Lemma body_without_appearance_hides_material :
  appearance_by_priority plate = Some blue
  ∧ first_color (Appearance.appearanceProperties blue) = Some (ColorProperty 0 0 255 255)
  ∧ chosen_appearance plate = None
  ∧ material_dict (material_of plate sample_config) !! "plate" = Some "silver_default".
Proof. repeat split; vm_compute; reflexivity. Qed.

(** C9, amended: the occurrence's own appearance is picked if present;
    otherwise, when the occurrence owns a body, the first owned body that
    has an appearance (nothing when no body has one); otherwise, when it
    owns no body, the component's material appearance.  The occurrence is
    assigned the default silver, which [_materials] registers, whenever the
    picked appearance is absent or has no colour property, and so whenever
    none of the three has one. *)
Theorem appearance_resolution `{Utils} (occ : Occurrence.t) (self : Configurator) :
  (∀ appearance,
     Occurrence.appearance occ = Some appearance →
     chosen_appearance occ = Some appearance)
  ∧ (Occurrence.appearance occ = None →
     ∀ i body appearance,
       Occurrence.bRepBodies occ !! i = Some body →
       BRepBody.appearance body = Some appearance →
       (∀ j earlier, j < i → Occurrence.bRepBodies occ !! j = Some earlier →
                     BRepBody.appearance earlier = None) →
       chosen_appearance occ = Some appearance)
  ∧ (Occurrence.appearance occ = None →
     Occurrence.bRepBodies occ ≠ [] →
     (∀ body, body ∈ Occurrence.bRepBodies occ → BRepBody.appearance body = None) →
     chosen_appearance occ = None)
  ∧ (Occurrence.appearance occ = None →
     Occurrence.bRepBodies occ = [] →
     chosen_appearance occ = Occurrence.material occ)
  ∧ (colorless (chosen_appearance occ) →
     material_dict (material_of occ self) !! format_name (get_name occ self).1
     = Some "silver_default")
  ∧ (colorless (Occurrence.appearance occ) →
     (∀ body, body ∈ Occurrence.bRepBodies occ → colorless (BRepBody.appearance body)) →
     colorless (Occurrence.material occ) →
     material_dict (material_of occ self) !! format_name (get_name occ self).1
     = Some "silver_default")
  ∧ is_Some (color_dict (_materials self) !! "silver_default").
Proof.
  assert (Hsilver :
    colorless (chosen_appearance occ) →
    material_dict (material_of occ self) !! format_name (get_name occ self).1
    = Some "silver_default").
  { intros Hc. apply material_of_silver. unfold get_appearance.
    destruct (chosen_appearance occ) as [a|] eqn:Ha; [|done].
    by rewrite (Hc a eq_refl). }
  split_and!.
  - intros a Ha. unfold chosen_appearance. by rewrite Ha.
  - intros Hown i body a Hi Ha Hbefore. unfold chosen_appearance. rewrite Hown.
    destruct (Occurrence.bRepBodies occ) as [|b bodies] eqn:Hb; [done|].
    rewrite (find_first _ _ i body); [done|done|by rewrite Ha|].
    intros j y Hj Hy. rewrite (Hbefore j y Hj Hy).
    apply bool_decide_eq_false_2. by intros [? ?].
  - intros Hown Hne Hall. unfold chosen_appearance. rewrite Hown.
    destruct (Occurrence.bRepBodies occ) as [|b bodies] eqn:Hb; [done|].
    rewrite find_nowhere; [done|]. intros x Hx. rewrite (Hall x Hx).
    apply bool_decide_eq_false_2. by intros [? ?].
  - intros Hown Hb. unfold chosen_appearance. by rewrite Hown, Hb.
  - done.
  - intros Hown Hbodies Hmat. apply Hsilver.
    destruct (chosen_appearance_cases occ) as [->|[->|[->|(body & Hin & ->)]]];
      [done|done|by intros ? ?|by apply Hbodies].
  - apply materials_default_registered.
Qed.

(** * The bodies of a subtree *)

Lemma same_node_refl (a : Hierarchy) : same_node a a = true.
Proof. unfold same_node. by apply bool_decide_eq_true_2. Qed.

Lemma same_node_trans (a b c : Hierarchy) :
  same_node a b = true → same_node b c = true → same_node a c = true.
Proof.
  unfold same_node. rewrite !bool_decide_eq_true. congruence.
Qed.

Lemma same_node_sym (a b : Hierarchy) : same_node a b = same_node b a.
Proof.
  unfold same_node. apply bool_decide_ext. split; congruence.
Qed.

Lemma existsb_set_add (c n : Hierarchy) (s : list Hierarchy) :
  existsb (same_node c) (set_add s n) = existsb (same_node c) s || same_node c n.
Proof.
  unfold set_add. destruct (existsb (same_node n) s) eqn:Hn.
  - destruct (same_node c n) eqn:Hc; [|by rewrite orb_false_r].
    rewrite orb_true_r. apply existsb_exists in Hn as (x & Hx & Hnx).
    apply existsb_exists. exists x. split; [done|]. by eapply same_node_trans.
  - rewrite existsb_app. cbn. by rewrite orb_false_r.
Qed.

Lemma set_update_present (s new : list Hierarchy) :
  (∀ n, n ∈ new → existsb (same_node n) s = true) → set_update s new = s.
Proof.
  unfold set_update. induction new as [|n new IH]; intros Hall; cbn; [done|].
  unfold set_add at 2. rewrite (Hall n) by left.
  apply IH. intros m Hm. apply Hall. by right.
Qed.

Lemma existsb_set_update (c : Hierarchy) (new s : list Hierarchy) :
  existsb (same_node c) (set_update s new)
  = existsb (same_node c) s || existsb (same_node c) new.
Proof.
  unfold set_update. revert s. induction new as [|n new IH]; intros s; cbn.
  - by rewrite orb_false_r.
  - rewrite IH, existsb_set_add. by rewrite orb_assoc.
Qed.

Section loop.
Context `{Utils} `{Host}.

(** The bodies that the loop of [get_flat_body] appends for a stack. *)
Lemma get_flat_body_loop_done (self : Hierarchy) :
  ∀ (parent_stack closed_set : list Hierarchy) (bound : nat)
    (body_list : list (list BRepBody.t)),
    (∀ c, c ∈ childs self →
          existsb (same_node c) closed_set = false →
          existsb (same_node c) parent_stack = true) →
    (List.length parent_stack ≤ bound)%nat →
    ∃ collected,
      get_flat_body_loop bound self parent_stack closed_set body_list
      = Done (body_list ++ collected)
      ∧ concat collected
        = flat_map (λ n, Occurrence.bRepBodies (component n)) parent_stack.
Proof.
  induction parent_stack as [|tmp rest IH]; intros closed_set bound body_list Hinv Hlen.
  - exists []. destruct bound; cbn; by rewrite app_nil_r.
  - destruct bound as [|bound]; cbn in Hlen; [lia|].
    cbn [get_flat_body_loop].
    assert (Hrest : ∀ c, c ∈ childs self →
                         existsb (same_node c) (set_add closed_set tmp) = false →
                         existsb (same_node c) rest = true).
    { intros c Hc Hclosed. rewrite existsb_set_add in Hclosed.
      apply orb_false_elim in Hclosed as [Hcl Htmp].
      specialize (Hinv c Hc Hcl). cbn in Hinv. by rewrite Htmp in Hinv. }
    assert (Hstack :
      match get_children tmp with
      | [] => rest
      | _ :: _ =>
          set_update rest
            (filter (λ _c, ¬ existsb (same_node _c) (set_add closed_set tmp))
               (childs self))
      end = rest).
    { destruct (get_children tmp); [done|].
      apply set_update_present. intros n Hn.
      apply list_elem_of_filter in Hn as [Hncl Hn].
      apply Hrest; [done|]. by destruct (existsb (same_node n) _). }
    rewrite Hstack.
    destruct (IH (set_add closed_set tmp) bound
                (match Occurrence.bRepBodies (component tmp) with
                 | [] => body_list
                 | _ :: _ => body_list ++ [Occurrence.bRepBodies (component tmp)]
                 end) Hrest ltac:(lia)) as (collected & Hloop & Hconcat).
    destruct (Occurrence.bRepBodies (component tmp)) as [|b bodies] eqn:Hb.
    + exists collected. split; [exact Hloop|]. cbn. by rewrite Hb.
    + exists ((b :: bodies) :: collected). split.
      * rewrite Hloop. by rewrite <- app_assoc.
      * cbn. rewrite Hb, Hconcat. done.
Qed.

(** [get_flat_body] returns the node's own bodies when nothing is below it,
    and after them the bodies of [flat_body_nodes]: the nodes that are
    children of a node below [self]. *)
Lemma get_flat_body_done (self : Hierarchy) :
  get_flat_body self
  = Done ((match (get_all_children self).*2 with
           | [] => Occurrence.bRepBodies (component self)
           | _ => []
           end)
          ++ flat_map (λ n, Occurrence.bRepBodies (component n)) (flat_body_nodes self)).
Proof.
  unfold get_flat_body.
  destruct (get_flat_body_loop_done self (set_update [] (childs self)) []
              (S (List.length (set_update [] (childs self))))
              (match (get_all_children self).*2 with
               | [] => [Occurrence.bRepBodies (component self)]
               | _ => []
               end))
    as (collected & Hloop & Hconcat).
  - intros c Hc _. rewrite existsb_set_update. cbn.
    apply existsb_exists. exists c. split; [by apply list_elem_of_In|].
    apply same_node_refl.
  - lia.
  - rewrite Hloop. cbn. rewrite concat_app, Hconcat. unfold flat_body_nodes.
    by destruct ((get_all_children self).*2); cbn; rewrite ?app_nil_r.
Qed.

End loop.

(** * The mass of a link *)

(** C5, the failing input: the gearbox owns no body and the gear below it
    owns a hidden body of mass 2.  The host reports the mass 5; the claim
    gives the link the mass 3, [_get_inertia] computes the mass 5, because
    [get_flat_body] does not reach the bodies of the occurrences directly
    below. *)
Theorem hidden_body_of_child_keeps_its_mass :
  subtree_bodies gearbox_node = [hidden_body]
  ∧ subtract_hidden (Occurrence.mass gearbox) (subtree_bodies gearbox_node) = 3%float
  ∧ get_flat_body gearbox_node = Done []
  ∧ corrected_mass (get_scene_configuration (init gearbox_design 0.01 0.01)) gearbox
    = Done 5%float.
Proof. repeat split; vm_compute; reflexivity. Qed.

(** * The sanity check *)

Section check.
Context `{Utils}.

(** The check looks for the robot's name among the keys of [body_dict],
    which are names of occurrences; when it is not there, nothing is
    checked. *)
Lemma sanity_check_without_namesake
    (robot_name : string) (grounded_occ : gset string) (self : Configurator) :
  body_dict self !! robot_name = None →
  sanity_check robot_name grounded_occ self = Done self.
Proof.
  intros Hnone. unfold sanity_check.
  assert (Hsets : sanity_sets robot_name grounded_occ self = (∅, ∅)).
  { unfold sanity_sets. rewrite Hnone.
    induction (_iterate_through_occurrences self) as [|oc ocs IH]; cbn; [done|].
    by rewrite andb_false_r. }
  rewrite Hsets. rewrite decide_False; [done|]. by intros [?|?].
Qed.

End check.

(** C4, the failing input: a grounded base and an isolated arm, visible and
    with a visible body, in a document named "robot".  The claim says that
    the check is fatal and names the arm.  On the state that the run has
    built when it comes to line 619, with the arm's body collected, the arm
    named and only the base link grounded, the check of lines 678-693
    finds nothing and passes. *)
Theorem isolated_occurrence_passes_the_check :
  Component.allJoints isolated_design = []
  ∧ Component.allRigidGroups isolated_design = []
  ∧ Occurrence.isLightBulbOn arm = true
  ∧ visible_bodies arm = [visible_body]
  ∧ ∃ self,
      before_first_link isolated_design = Done self
      ∧ name self = Done "robot"
      ∧ body_dict self !! "arm" = Some [visible_body]
      ∧ body_dict self !! "robot" = None
      ∧ links_by_token self !! Occurrence.entityToken arm = Some "arm"
      ∧ sanity_sets "robot" {["base_link"]} self = (∅, ∅)
      ∧ sanity_check "robot" {["base_link"]} self = Done self.
Proof.
  split_and!; [reflexivity..|].
  eexists. split; [vm_compute; reflexivity|].
  split_and!; vm_compute; reflexivity.
Qed.

(** The same assembly is refused by the check when the document happens to
    be named like the arm: then the key is found and the arm is reported. *)
Lemma isolated_namesake_is_fatal :
  ∃ self,
    before_first_link isolated_namesake_design = Done self
    ∧ name self = Done "arm"
    ∧ sanity_check "arm" {["base_link"]} self = Fatal (NotAllIncluded ∅ {["arm"]}).
Proof.
  eexists. split; [vm_compute; reflexivity|].
  split; vm_compute; reflexivity.
Qed.

(** * How a run can end *)

Lemma ends_with_mono {S : Type} (F G : fatal_error → Prop) (o : outcome S) :
  (∀ msg, F msg → G msg) → ends_with F o → ends_with G o.
Proof. destruct o; cbn; auto. Qed.

Lemma bind_ends {A B : Type} (F : fatal_error → Prop)
    (m : outcome A) (f : A → outcome B) :
  ends_with F m → (∀ a, m = Done a → ends_with F (f a)) → ends_with F (m ≫= f).
Proof. destruct m; cbn; intros Hm Hf; [by apply Hf|done..]. Qed.



(** A loop whose body keeps [P] and ends as [F] allows. *)
Lemma for_each_inv {A S : Type} (F : fatal_error → Prop) (P : S → Prop)
    (body : A → S → outcome S) (xs : list A) :
  (∀ x s, x ∈ xs → P s →
          ends_with F (body x s) ∧ ∀ s', body x s = Done s' → P s') →
  ∀ s, P s →
       ends_with F (for_each body xs s)
       ∧ ∀ s', for_each body xs s = Done s' → P s'.
Proof.
  induction xs as [|x xs IH]; intros Hbody s Hs; cbn.
  - split; [done|]. by intros s' [= <-].
  - destruct (Hbody x s ltac:(left) Hs) as [Hno Hkeep].
    assert (Hrest : ∀ x s, x ∈ xs → P s →
              ends_with F (body x s) ∧ ∀ s', body x s = Done s' → P s').
    { intros y t Hy. apply Hbody. by right. }
    destruct (body x s) as [s1| | |]; cbn; [|done..].
    apply (IH Hrest). by apply Hkeep.
Qed.

Lemma dict_get_elem {A : Type} (d : list (string * A)) (k : string) (v : A) :
  dict_get d k = Some v → (k, v) ∈ d.
Proof.
  induction d as [|[k' v'] d IH]; cbn; [done|].
  destruct (decide (k' = k)) as [->|]; [intros [= ->]; left|right; auto].
Qed.





Section ending.
Context `{Utils} `{Host}.

Lemma get_name_extends (oc : Occurrence.t) (self : Configurator) :
  extends self (get_name oc self).2.
Proof.
  repeat split;
    try (unfold get_name; by destruct (links_by_token self !! Occurrence.entityToken oc)).
  apply get_name_stable.
Qed.












End ending.

Section run_ending.
Context `{Utils} `{Host}.

Lemma try_get_origin_ends (F : fatal_error → Prop) (o : Geometry) :
  ends_with F (try_get_origin o).
Proof. unfold try_get_origin. by destruct (get_origin o) as [[]|]. Qed.

Lemma axis_and_limits_ends (F : fatal_error → Prop) (self : Configurator)
    (motion : JointMotion) :
  ends_with F (axis_and_limits self motion).
Proof.
  destruct motion as [|a l|d l| | | |]; cbn; try done.
  - destruct (JointLimits.isMaximumValueEnabled l), (JointLimits.isMinimumValueEnabled l);
      cbn; try done. by destruct (abs _ =? 0)%float.
  - by destruct (JointLimits.isMaximumValueEnabled l), (JointLimits.isMinimumValueEnabled l).
Qed.

Lemma joint_info_ends (self : Configurator) (joint : HostJoint.t)
    (joint_type name parent child : string) (one two : option Point3D.t) :
  ends_with joint_refused (joint_info self joint joint_type name parent child one two).
Proof.
  unfold joint_info. case_decide; [done|].
  apply bind_ends.
  - destruct one as [one|]; [|done]. destruct two as [two|]; [|done].
    rewrite close_enough_axes. cbn. by destruct (_ && _).
  - intros origin _. apply bind_ends; [apply axis_and_limits_ends|].
    by intros [[v mx] mn] _.
Qed.

Lemma process_joint_ends (joint : HostJoint.t) (self : Configurator) :
  ends_with joint_refused (process_joint joint self).
Proof.
  unfold process_joint.
  destruct (HostJoint.healthState joint); try done.
  destruct (HostJoint.isValid joint); cbn [negb]; [|done].
  apply bind_ends; [by destruct (joint_type_list !! _)|]. intros joint_type _.
  apply bind_ends; [apply try_get_origin_ends|]. intros one _.
  apply bind_ends; [apply try_get_origin_ends|]. intros two _.
  destruct (get_name (HostJoint.occurrenceOne joint) self) as [n1 self1].
  destruct (get_name (HostJoint.occurrenceTwo joint) self1) as [n2 self2].
  destruct (joint_order self2); (apply bind_ends; [apply joint_info_ends|done]).
Qed.


Lemma collect_bodies_extends (oc : Occurrence.t) (self : Configurator) :
  joints_dict (collect_bodies oc self) = joints_dict self
  ∧ component_map (collect_bodies oc self) = component_map self
  ∧ base_link (collect_bodies oc self) = base_link self
  ∧ root (collect_bodies oc self) = root self
  ∧ is_Some (links_by_token (collect_bodies oc self) !! Occurrence.entityToken oc)
  ∧ ∀ token link_name,
      links_by_token self !! token = Some link_name →
      links_by_token (collect_bodies oc self) !! token = Some link_name.
Proof.
  unfold collect_bodies.
  pose proof (get_name_extends oc self) as (Hd & Hc & _ & Hr & Hn).
  pose proof (get_name_registered oc self) as Hreg.
  assert (Hb : base_link (get_name oc self).2 = base_link self).
  { unfold get_name. by destruct (links_by_token self !! Occurrence.entityToken oc). }
  destruct (get_name oc self) as [occ_name self1]. cbn in *.
  split_and!; [done..|by eexists|done].
Qed.

Lemma collect_all_named (occs : list Occurrence.t) :
  ∀ self : Configurator,
    let self' := fold_left (λ self oc, collect_bodies oc self) occs self in
    joints_dict self' = joints_dict self
    ∧ component_map self' = component_map self
    ∧ base_link self' = base_link self
    ∧ root self' = root self
    ∧ (∀ token link_name,
         links_by_token self !! token = Some link_name →
         links_by_token self' !! token = Some link_name)
    ∧ ∀ oc, oc ∈ occs → is_Some (links_by_token self' !! Occurrence.entityToken oc).
Proof.
  induction occs as [|oc occs IH]; intros self; cbn zeta; cbn [fold_left].
  - split_and!; try done. by intros oc Hoc%elem_of_nil.
  - destruct (collect_bodies_extends oc self) as (Hd & Hc & Hb & Hr & Hoc & Hn).
    destruct (IH (collect_bodies oc self)) as (Hd' & Hc' & Hb' & Hr' & Hn' & Hall).
    split_and!; try congruence; [by auto|].
    intros oc' [->|Hin]%elem_of_cons; [|by apply Hall].
    destruct Hoc as [n Hoc]. exists n. by apply Hn'.
Qed.


(** The first loop of [_build] names every occurrence of the scene. *)
Lemma build_prepare_named (self self' : Configurator) (robot_name : string)
    (occurrences : gmap string (list string)) :
  build_prepare self = Done (robot_name, occurrences, self') → all_named self'.
Proof.
  unfold build_prepare.
  pose proof (collect_all_named
                (_iterate_through_occurrences (set_link_origins (set_body_dict self ∅) ∅))
                (set_link_origins (set_body_dict self ∅) ∅)) as Hcol.
  cbn zeta in Hcol.
  set (collected := fold_left _ _ _) in *.
  destruct Hcol as (Hd & Hc & Hb & Hr & Hn & Hall).
  intros Hs. bind_inv Hs rn0 Hrn. bind_inv Hs base0 Hbase.
  injection Hs as <- <- <-.
  intros oc Hoc. apply Hall.
  unfold _iterate_through_occurrences in Hoc |- *.
  change (oc ∈ component <$> (component_map collected).*2) in Hoc.
  by rewrite Hc in Hoc.
Qed.


(** [_build] does not get past line 619. *)
Lemma build_start_never_done (self : Configurator)
    (r : string * gmap string (list string) * Configurator) :
  build_start self ≠ Done r.
Proof.
  unfold build_start. intros Hs. bind_inv Hs p Hp. destruct p as [[rn occs] self1].
  bind_inv Hs base0 Hbase. bind_inv Hs self2 Hadd.
  by apply add_link_never_done in Hadd.
Qed.

Lemma sanity_sets_named (robot_name : string) (grounded_occ : gset string)
    (self : Configurator) :
  all_named self → (sanity_sets robot_name grounded_occ self).1 = ∅.
Proof.
  unfold sanity_sets, all_named.
  generalize (∅ : gset string) at 2 as unreachable.
  generalize (∅ : gset string) at 1 2 as not_in_joints.
  induction (_iterate_through_occurrences self) as [|oc occs IH];
    intros not_in_joints unreachable Hall; cbn [fold_left]; [done|].
  assert (Hrest : ∀ oc, oc ∈ occs →
            is_Some (links_by_token self !! Occurrence.entityToken oc))
    by (intros ? ?; apply Hall; by right).
  destruct (Hall oc ltac:(left)) as [n Hn].
  destruct (Occurrence.isLightBulbOn oc && _); [|by apply IH].
  rewrite Hn. case_decide; by apply IH.
Qed.




Lemma parse_never_done (self self' : Configurator) : parse self ≠ Done self'.
Proof.
  unfold parse, _build. intros Hp.
  bind_inv Hp self1 Hb. bind_inv Hp self2 Hj. bind_inv Hp r Hs.
  by apply build_start_never_done in Hs.
Qed.

End run_ending.


(** X2: the first loop of [_build] gives every occurrence of the scene a
    name.  So in the check that closes [_build], made on the state that
    lines 573-618 leave or on a later one, the list of occurrences "not a
    part of any joint or rigid group" is empty, whatever the robot's name
    and the set of grounded names. *)
Theorem not_in_joints_is_never_reported `{Utils} `{Host} (self self' : Configurator)
    (robot_name : string) (occurrences : gmap string (list string))
    (name_given : string) (grounded_occ : gset string) :
  build_prepare self = Done (robot_name, occurrences, self') →
  all_named self' ∧ (sanity_sets name_given grounded_occ self').1 = ∅.
Proof.
  intros Hs. apply build_prepare_named in Hs. split; [exact Hs|].
  by apply sanity_sets_named.
Qed.

Lemma not_in_joints_is_never_reported_witness :
  all_named (state_of (before_first_link isolated_namesake_design))
  ∧ (sanity_sets "arm" {["base_link"]}
       (state_of (before_first_link isolated_namesake_design))).1 = ∅.
Proof.
  apply (not_in_joints_is_never_reported
           (_materials (state_of (after_joints isolated_namesake_design)))
           (state_of (before_first_link isolated_namesake_design)) "arm"
           (incidence
              (joints_dict (state_of (before_first_link isolated_namesake_design))))).
  vm_compute. reflexivity.
Defined.

(** X24: no run completes.  [__add_link] calls [parts.Link] without the
    argument [visible], which [Link.__init__] requires, so it never
    returns; [_build] calls it for the base link before the loop
    [while boundary], so neither [_build] nor [parse] returns a result:
    from any state they end with a fatal error or an exception. *)
Theorem no_run_completes `{Utils} `{Host} (self self' : Configurator) :
  (∀ occ, add_link occ self ≠ Done self')
  ∧ _build self ≠ Done self'
  ∧ parse self ≠ Done self'.
Proof.
  split_and!.
  - intros occ. apply add_link_never_done.
  - unfold _build. intros Hb. bind_inv Hb r Hs.
    by apply build_start_never_done in Hs.
  - apply parse_never_done.
Qed.

(** * Names of occurrences *)

Section naming.
Context `{Utils} `{!UtilsFresh}.

Lemma get_name_consistent (oc : Occurrence.t) (self : Configurator) :
  names_consistent self → names_consistent (get_name oc self).2.
Proof.
  intros Hc. unfold get_name.
  destruct (links_by_token self !! Occurrence.entityToken oc) as [known|] eqn:Hl;
    [done|]. cbn.
  set (new_name := rename_if_duplicate (Occurrence.name oc) (dom (links_by_name self))).
  assert (Hfresh : links_by_name self !! new_name = None).
  { apply not_elem_of_dom. apply rename_fresh. }
  intros token link_name. cbn.
  destruct (decide (Occurrence.entityToken oc = token)) as [<-|Hne].
  - rewrite lookup_insert_eq. intros [= <-]. exists oc. by rewrite lookup_insert_eq.
  - rewrite lookup_insert_ne by done. intros Ht.
    destruct (Hc token link_name Ht) as (oc' & Hoc' & Htok).
    exists oc'. split; [|done]. rewrite lookup_insert_ne; [done|].
    intros <-. congruence.
Qed.

Lemma names_consistent_inj (self : Configurator) (token1 token2 link_name : string) :
  names_consistent self →
  links_by_token self !! token1 = Some link_name →
  links_by_token self !! token2 = Some link_name →
  token1 = token2.
Proof.
  intros Hc H1 H2.
  destruct (Hc _ _ H1) as (oc1 & Ho1 & <-).
  destruct (Hc _ _ H2) as (oc2 & Ho2 & <-). congruence.
Qed.

End naming.

(** X3: [get_name] is idempotent, and it keeps the two name tables in
    agreement: asked again for the same occurrence it returns the same name
    and changes nothing; an occurrence that is new gets a name that no other
    token has. *)
Theorem get_name_is_stable_and_fresh `{Utils} `{!UtilsFresh}
    (oc : Occurrence.t) (self : Configurator) :
  names_consistent self →
  get_name oc (get_name oc self).2 = get_name oc self
  ∧ names_consistent (get_name oc self).2
  ∧ ∀ token link_name,
      token ≠ Occurrence.entityToken oc →
      links_by_token (get_name oc self).2 !! token = Some link_name →
      link_name ≠ (get_name oc self).1.
Proof.
  intros Hc. split_and!.
  - pose proof (get_name_registered oc self) as Hreg.
    destruct (get_name oc self) as [link_name self1] eqn:Hg. cbn in Hreg |- *.
    unfold get_name at 1. by rewrite Hreg.
  - by apply get_name_consistent.
  - intros token link_name Hne Ht ->.
    apply Hne. symmetry.
    eapply (names_consistent_inj (get_name oc self).2);
      [by apply get_name_consistent|apply get_name_registered|exact Ht].
Qed.

Lemma get_name_is_stable_and_fresh_witness :
  get_name arm (get_name arm sample_config).2 = get_name arm sample_config.
Proof.
  refine (proj1 (get_name_is_stable_and_fresh arm sample_config _)).
  intros token link_name Ht. cbn in Ht. by rewrite lookup_empty in Ht.
Defined.

Section run_names.
Context `{Utils} `{Host} `{!UtilsFresh}.

Lemma joint_info_fields (self : Configurator) (joint : HostJoint.t)
    (joint_type name parent child : string) (one two : option Point3D.t)
    (info : JointInfo.t) :
  joint_info self joint joint_type name parent child one two = Done info →
  JointInfo.name info = name
  ∧ JointInfo.parent info = parent
  ∧ JointInfo.child info = child
  ∧ JointInfo.type info = joint_type.
Proof.
  unfold joint_info. case_decide as Hty.
  - intros [= <-]. by rewrite Hty.
  - intros Hi. bind_inv Hi origin Ho.
    destruct (axis_and_limits self (HostJoint.jointMotion joint)) as [[[v mx] mn]| | |];
      cbn in Hi; [|done..]. by injection Hi as <-.
Qed.

(** A joint is skipped, or it adds one record under a fresh key. *)
Lemma process_joint_done (joint : HostJoint.t) (self self' : Configurator) :
  process_joint joint self = Done self' →
  self' = self
  ∨ ∃ n1 n2 info,
      let self1 := (get_name (HostJoint.occurrenceOne joint) self).2 in
      let self2 := (get_name (HostJoint.occurrenceTwo joint) self1).2 in
      let key := rename_if_duplicate (HostJoint.name joint) (dict_keys (joints_dict self)) in
      n1 = (get_name (HostJoint.occurrenceOne joint) self).1
      ∧ n2 = (get_name (HostJoint.occurrenceTwo joint) self1).1
      ∧ JointInfo.name info = key
      ∧ (JointInfo.parent info, JointInfo.child info)
        = match joint_order self with
          | ParentChild => (n1, n2)
          | ChildParent => (n2, n1)
          end
      ∧ self' = set_joints_dict self2 (joints_dict self ++ [(key, info)]).
Proof.
  unfold process_joint. intros Hp.
  destruct (HostJoint.healthState joint); try done; try (injection Hp as <-; by left).
  destruct (HostJoint.isValid joint); cbn [negb] in Hp; [|injection Hp as <-; by left].
  right.
  bind_inv Hp joint_type Hty. bind_inv Hp g1 Hone. bind_inv Hp g2 Htwo.
  pose proof (get_name_joints_dict (HostJoint.occurrenceOne joint) self) as Hj1.
  assert (Ho1 : joint_order (get_name (HostJoint.occurrenceOne joint) self).2
                = joint_order self).
  { unfold get_name. by destruct (links_by_token self !! _). }
  destruct (get_name (HostJoint.occurrenceOne joint) self) as [n1 self1].
  cbn [fst snd] in Hj1, Ho1 |- *.
  pose proof (get_name_joints_dict (HostJoint.occurrenceTwo joint) self1) as Hj2.
  assert (Ho2 : joint_order (get_name (HostJoint.occurrenceTwo joint) self1).2
                = joint_order self1).
  { unfold get_name. by destruct (links_by_token self1 !! _). }
  destruct (get_name (HostJoint.occurrenceTwo joint) self1) as [n2 self2].
  cbn [fst snd] in Hj2, Ho2 |- *.
  rewrite Ho2, Ho1 in Hp. rewrite Hj2, Hj1 in Hp.
  destruct (joint_order self); cbn in Hp.
  all: bind_inv Hp info Hinfo; injection Hp as <-;
    apply joint_info_fields in Hinfo as (Hn & Hpa & Hch & _);
    exists n1, n2, info; cbn zeta; cbn [fst snd];
    split_and!; [done|done|done|by rewrite Hpa, Hch|];
    by rewrite dict_set_fresh by apply rename_fresh.
Qed.

Lemma keyed_snoc (d : list (string * JointInfo.t)) (info : JointInfo.t) :
  keyed d → JointInfo.name info ∉ dict_keys d → keyed (d ++ [(JointInfo.name info, info)]).
Proof.
  intros [Hnd Hkey] Hfresh. split.
  - rewrite fmap_app. apply NoDup_app. split_and!; [done| |apply NoDup_singleton].
    intros k Hk [->|[]%elem_of_nil]%elem_of_cons.
    apply Hfresh. unfold dict_keys. by apply elem_of_list_to_set.
  - intros key info' [Hin|[= -> ->]%list_elem_of_singleton]%elem_of_app; [by apply Hkey|done].
Qed.

Lemma process_joint_keeps (joint : HostJoint.t) (self self' : Configurator) :
  process_joint joint self = Done self' →
  (names_consistent self → names_consistent self')
  ∧ (keyed (joints_dict self) → keyed (joints_dict self'))
  ∧ joints_dict self `prefix_of` joints_dict self'.
Proof.
  intros [->|(n1 & n2 & info & Hdone)]%process_joint_done; [done|].
  cbn zeta in Hdone. destruct Hdone as (_ & _ & Hname & _ & ->). cbn.
  split_and!.
  - intros Hc. by do 2 apply get_name_consistent.
  - intros Hk. rewrite <- Hname. apply keyed_snoc; [done|].
    rewrite Hname. apply rename_fresh.
  - by eexists.
Qed.

Lemma process_group_keeps (group : RigidGroup.t) (self : Configurator) :
  (names_consistent self → names_consistent (process_group group self))
  ∧ (keyed (joints_dict self) → keyed (joints_dict (process_group group self)))
  ∧ joints_dict self `prefix_of` joints_dict (process_group group self).
Proof.
  unfold process_group. destruct (RigidGroup.occurrences group) as [|parent_occ others];
    [done|].
  revert self. induction others as [|occ others IH]; intros self; cbn [fold_left]; [done|].
  destruct (IH (process_group_occurrence (RigidGroup.name group) parent_occ occ self))
    as (Hc & Hk & Hp).
  assert (Hstep :
    (names_consistent self →
     names_consistent (process_group_occurrence (RigidGroup.name group) parent_occ occ self))
    ∧ (keyed (joints_dict self) →
       keyed (joints_dict
                (process_group_occurrence (RigidGroup.name group) parent_occ occ self)))
    ∧ joints_dict self
      `prefix_of` joints_dict
                    (process_group_occurrence (RigidGroup.name group) parent_occ occ self)).
  { destruct (process_group_occurrence_spec (RigidGroup.name group) parent_occ occ self)
      as (pn & cn & Hj & _).
    split_and!.
    - intros Hcons. unfold process_group_occurrence.
      pose proof (get_name_consistent parent_occ self Hcons) as Hc1.
      destruct (get_name parent_occ self) as [pn' self1]. cbn in Hc1.
      pose proof (get_name_consistent occ self1 Hc1) as Hc2.
      by destruct (get_name occ self1) as [cn' self2].
    - intros Hkeyed. rewrite Hj.
      apply (keyed_snoc _ (JointInfo.fixed _ pn cn)); [done|]. cbn. apply rename_fresh.
    - rewrite Hj. by eexists. }
  destruct Hstep as (Hc1 & Hk1 & Hp1).
  split_and!; [by auto|by auto|by etransitivity].
Qed.

Lemma joints_keeps (self self' : Configurator) :
  _joints self = Done self' →
  (names_consistent self → names_consistent self')
  ∧ (keyed (joints_dict self) → keyed (joints_dict self'))
  ∧ joints_dict self `prefix_of` joints_dict self'.
Proof.
  unfold _joints. intros Hj. bind_inv Hj self1 Hloop. injection Hj as <-.
  set (P := λ s : Configurator,
              (names_consistent self → names_consistent s)
              ∧ (keyed (joints_dict self) → keyed (joints_dict s))
              ∧ joints_dict self `prefix_of` joints_dict s).
  assert (Hself1 : P self1).
  { destruct (for_each_inv (λ _, True) P process_joint
                (Component.allJoints (root self))) with (s := self) as [_ Hkeep].
    - intros joint s _ (Hc & Hk & Hp).
      split; [by eapply ends_with_mono; [|apply process_joint_ends]|].
      intros s' Hs. destruct (process_joint_keeps joint s s' Hs) as (Hc' & Hk' & Hp').
      split_and!; [by auto|by auto|by etransitivity].
    - by split_and!.
    - by apply Hkeep. }
  clear Hloop. revert Hself1.
  generalize (Component.allRigidGroups (root self1)) as groups.
  intros groups. revert self1.
  induction groups as [|group groups IH]; intros s Hs; cbn [fold_left]; [exact Hs|].
  apply IH. destruct Hs as (Hc & Hk & Hp).
  destruct (process_group_keeps group s) as (Hc' & Hk' & Hp').
  split_and!; [by auto|by auto|by etransitivity].
Qed.

End run_names.

(** X4: [_joints] only appends: the records that were there stay, in their
    order; and when the records were stored under their own names, each name
    once, they still are afterwards. *)
Theorem joints_are_keyed_by_their_names `{Utils} `{!UtilsFresh}
    (self self' : Configurator) :
  keyed (joints_dict self) →
  _joints self = Done self' →
  keyed (joints_dict self') ∧ joints_dict self `prefix_of` joints_dict self'.
Proof.
  intros Hk Hj. destruct (joints_keeps self self' Hj) as (_ & Hk' & Hp). auto.
Qed.

Lemma joints_are_keyed_by_their_names_witness :
  ∃ self', _joints (init gearbox_design 0.01 0.01) = Done self'
           ∧ keyed (joints_dict self').
Proof.
  assert (Hk : keyed (joints_dict (init gearbox_design 0.01 0.01))).
  { split; [constructor|]. intros key info Hin. by apply elem_of_nil in Hin. }
  eexists. split; [vm_compute; reflexivity|].
  refine (proj1 (joints_are_keyed_by_their_names _ _ Hk _)).
  vm_compute; reflexivity.
Defined.

(** * The joints at each occurrence *)

Lemma append_name_lookup (occurrences : gmap string (list string))
    (key joint_name k : string) :
  default [] (append_name occurrences key joint_name !! k)
  = default [] (occurrences !! k) ++ (if decide (key = k) then [joint_name] else []).
Proof.
  unfold append_name. case_decide as Hk.
  - subst k. by rewrite lookup_insert_eq.
  - rewrite lookup_insert_ne by done. by rewrite app_nil_r.
Qed.

Lemma incidence_lookup (d : list (string * JointInfo.t)) (k : string) :
  default [] (incidence d !! k)
  = flat_map
      (λ item, (if decide (JointInfo.parent item.2 = k) then [item.1] else [])
               ++ (if decide (JointInfo.child item.2 = k) then [item.1] else []))
      d.
Proof.
  unfold incidence.
  enough (Hgen : ∀ acc : gmap string (list string),
    default [] (fold_left
                  (λ occurrences item,
                     append_name
                       (append_name occurrences (JointInfo.parent item.2) item.1)
                       (JointInfo.child item.2) item.1) d acc !! k)
    = default [] (acc !! k)
      ++ flat_map
           (λ item, (if decide (JointInfo.parent item.2 = k) then [item.1] else [])
                    ++ (if decide (JointInfo.child item.2 = k) then [item.1] else []))
           d).
  { rewrite Hgen. by rewrite lookup_empty. }
  induction d as [|item d IH]; intros acc; cbn [fold_left flat_map].
  - by rewrite app_nil_r.
  - rewrite IH, !append_name_lookup. by rewrite <- !app_assoc.
Qed.

Lemma dict_get_NoDup {A : Type} (d : list (string * A)) (k : string) (v : A) :
  NoDup d.*1 → (k, v) ∈ d → dict_get d k = Some v.
Proof.
  induction d as [|[k' v'] d IH]; intros Hnd Hin; [by apply elem_of_nil in Hin|].
  cbn in Hnd. apply NoDup_cons in Hnd as [Hk' Hnd].
  apply elem_of_cons in Hin as [[= <- <-]|Hin]; cbn.
  - by rewrite decide_True.
  - rewrite decide_False; [by apply IH|].
    intros ->. apply Hk'. by apply (list_elem_of_fmap_2 fst _ (k, v)).
Qed.

(** X5: the table [occurrences] of [_build] lists a joint name at an
    occurrence exactly when a record under that name has the occurrence as
    its parent or as its child. *)
Theorem incidence_lists_the_joints_at_an_occurrence
    (joints_dict : list (string * JointInfo.t)) (occ_name joint_name : string) :
  joint_name ∈ default [] (incidence joints_dict !! occ_name)
  ↔ ∃ info, (joint_name, info) ∈ joints_dict
            ∧ (JointInfo.parent info = occ_name ∨ JointInfo.child info = occ_name).
Proof.
  rewrite incidence_lookup, list_elem_of_In, in_flat_map. split.
  - intros ([key info] & Hin & Hk). cbn in Hk. apply list_elem_of_In in Hin.
    apply in_app_or in Hk as [Hk|Hk]; case_decide; cbn in Hk; try done;
      destruct Hk as [<-|[]]; eauto.
  - intros (info & Hin & Hends). exists (joint_name, info).
    split; [by apply list_elem_of_In|]. cbn. apply in_or_app.
    destruct Hends as [Hp|Hc]; [left|right]; rewrite decide_True by done; by left.
Qed.

(** X6: in the loop [while boundary], the lookup [self.joints_dict[joint_name]]
    of line 625 finds a record and the assertion of line 631 holds, for every
    joint name that the table [occurrences] lists at the occurrence. *)
Theorem joints_at_an_occurrence_pass_the_assertion
    (joints_dict : list (string * JointInfo.t)) (grounded_occ : gset string)
    (occ_name joint_name : string) :
  keyed joints_dict →
  joint_name ∈ default [] (incidence joints_dict !! occ_name) →
  ∃ joint found,
    dict_get joints_dict joint_name = Some joint
    ∧ neighbor grounded_occ occ_name joint = Done found.
Proof.
  intros [Hnd _] Hin.
  rewrite incidence_lookup, list_elem_of_In, in_flat_map in Hin.
  destruct Hin as ([key info] & Hin & Hk). cbn in Hk. apply list_elem_of_In in Hin.
  assert (Hends : key = joint_name
                  ∧ (JointInfo.parent info = occ_name ∨ JointInfo.child info = occ_name)).
  { apply in_app_or in Hk as [Hk|Hk]; case_decide; cbn in Hk; try done;
      destruct Hk as [<-|[]]; auto. }
  destruct Hends as [-> Hends].
  exists info. rewrite (dict_get_NoDup _ _ _ Hnd Hin).
  unfold neighbor. repeat case_decide; eauto. by destruct Hends.
Qed.

Lemma joints_at_an_occurrence_pass_the_assertion_witness :
  ∃ joint found,
    dict_get [("hinge", swapped_hinge)] "hinge" = Some joint
    ∧ neighbor {["base_link"]} "base_link" joint = Done found.
Proof.
  apply joints_at_an_occurrence_pass_the_assertion.
  - split; [apply NoDup_singleton|].
    by intros key info [= -> ->]%list_elem_of_singleton.
  - vm_compute. apply list_elem_of_singleton. reflexivity.
Defined.

(** * The scene *)

Lemma dict_set_keys {A : Type} (d : list (string * A)) (k : string) (v : A) :
  NoDup d.*1 → NoDup (dict_set d k v).*1.
Proof.
  induction d as [|[k' v'] d IH]; cbn; intros Hnd.
  - apply NoDup_singleton.
  - apply NoDup_cons in Hnd as [Hk' Hnd]. case_decide as Hk; cbn.
    + subst k'. by apply NoDup_cons.
    + apply NoDup_cons. split; [|by apply IH].
      intros Hin. apply Hk'. clear -Hin Hk.
      induction d as [|[k2 v2] d IH]; cbn in *.
      * apply list_elem_of_singleton in Hin. congruence.
      * case_decide; cbn in Hin; apply elem_of_cons in Hin as [->|Hin];
          try (by left); try congruence; right; [done|by apply IH].
Qed.

Lemma dict_get_set {A : Type} (d : list (string * A)) (k k' : string) (v : A) :
  dict_get (dict_set d k v) k' = if decide (k = k') then Some v else dict_get d k'.
Proof.
  induction d as [|[k2 v2] d IH]; cbn.
  - done.
  - destruct (decide (k2 = k)) as [->|Hk2]; cbn.
    + by destruct (decide (k = k')).
    + destruct (decide (k2 = k')) as [->|Hk2']; [by rewrite decide_False|done].
Qed.

Lemma find_app {A : Type} (f : A → bool) (l1 l2 : list A) :
  find f (l1 ++ l2) = match find f l1 with Some x => Some x | None => find f l2 end.
Proof. induction l1 as [|a l1 IH]; cbn; [done|]. by destruct (f a). Qed.

(** The map that [get_all_children] builds from the nodes it pops. *)
Lemma fold_dict_set_get (nodes : list Hierarchy) (k : string) :
  ∀ acc : list (string * Hierarchy),
    dict_get
      (fold_left (λ child_map tmp, dict_set child_map (token_of tmp) tmp) nodes acc) k
    = match find (λ n, bool_decide (token_of n = k)) (reverse nodes) with
      | Some n => Some n
      | None => dict_get acc k
      end.
Proof.
  induction nodes as [|n nodes IH]; intros acc; cbn [fold_left]; [done|].
  rewrite IH, reverse_cons, find_app.
  destruct (find _ (reverse nodes)); [done|]. cbn.
  rewrite dict_get_set.
  destruct (decide (token_of n = k)) as [Hk|Hk].
  - by rewrite bool_decide_eq_true_2.
  - by rewrite bool_decide_eq_false_2.
Qed.

Lemma fold_dict_set_keys (nodes : list Hierarchy) :
  ∀ acc : list (string * Hierarchy),
    NoDup acc.*1 →
    NoDup (fold_left (λ child_map tmp, dict_set child_map (token_of tmp) tmp)
             nodes acc).*1.
Proof.
  induction nodes as [|n nodes IH]; intros acc Hnd; cbn [fold_left]; [done|].
  by apply IH, dict_set_keys.
Qed.

Lemma descendants_children (h : Hierarchy) :
  descendants h = flat_map (λ c, c :: descendants c) (get_children h).
Proof. by destruct h. Qed.

Lemma get_all_children_get (h : Hierarchy) (k : string) :
  dict_get (get_all_children h) k
  = find (λ n, bool_decide (token_of n = k)) (reverse (descendants h)).
Proof.
  unfold get_all_children, all_children. rewrite <- descendants_children.
  pose proof (fold_dict_set_get (descendants h) k []) as Hget.
  unfold token_of in Hget at 1. rewrite Hget.
  by destruct (find _ _).
Qed.

Lemma get_all_children_maps_tokens_to_nodes_aux (h : Hierarchy) :
  NoDup (get_all_children h).*1
  ∧ (∀ token node,
       dict_get (get_all_children h) token = Some node →
       node ∈ descendants h ∧ token_of node = token)
  ∧ ∀ node, node ∈ descendants h →
            is_Some (dict_get (get_all_children h) (token_of node)).
Proof.
  split_and!.
  - unfold get_all_children, all_children.
    apply (fold_dict_set_keys _ []). constructor.
  - intros token node. rewrite get_all_children_get. intros Hf.
    apply find_some in Hf as [Hin Ht]. apply bool_decide_eq_true in Ht.
    split; [|done]. by rewrite <- list_elem_of_In, elem_of_reverse in Hin.
  - intros node Hin. rewrite get_all_children_get.
    destruct (find _ _) as [n|] eqn:Hf; [by eexists|].
    exfalso. assert (Hn : bool_decide (token_of node = token_of node) = false).
    { apply (find_none _ _ Hf node). apply list_elem_of_In. by apply elem_of_reverse. }
    by apply bool_decide_eq_false in Hn.
Qed.

(** X7: [get_all_children] maps an entity token to a node below the
    receiver that has this token, and it has an entry for the token of
    every node below the receiver; no token is a key twice. *)
Theorem get_all_children_maps_tokens_to_nodes (h : Hierarchy) :
  NoDup (get_all_children h).*1
  ∧ (∀ token node,
       dict_get (get_all_children h) token = Some node →
       node ∈ descendants h ∧ token_of node = token)
  ∧ ∀ node, node ∈ descendants h →
            is_Some (dict_get (get_all_children h) (token_of node)).
Proof. apply get_all_children_maps_tokens_to_nodes_aux. Qed.

Lemma find_NoDup_fmap {A : Type} (f : A → string) (l : list A) (x : A) :
  NoDup (f <$> l) → x ∈ l → find (λ n, bool_decide (f n = f x)) l = Some x.
Proof.
  induction l as [|a l IH]; intros Hnd Hin; [by apply elem_of_nil in Hin|].
  cbn in Hnd. apply NoDup_cons in Hnd as [Ha Hnd].
  apply elem_of_cons in Hin as [->|Hin]; cbn.
  - by rewrite bool_decide_eq_true_2.
  - rewrite bool_decide_eq_false_2; [by apply IH|].
    intros Heq. apply Ha. rewrite Heq. by apply list_elem_of_fmap_2.
Qed.

(** X8: when the occurrences below the root have entity tokens of their
    own, [get_scene_configuration] files every one of them under its token:
    the component map loses no occurrence. *)
Theorem component_map_holds_every_occurrence (self : Configurator) (node : Hierarchy) :
  let nodes := flat_map (λ c, c :: descendants c) (Component.occurrences (root self)) in
  NoDup (token_of <$> nodes) →
  node ∈ nodes →
  dict_get (component_map (get_scene_configuration self)) (token_of node) = Some node
  ∧ component node ∈ _iterate_through_occurrences (get_scene_configuration self).
Proof.
  cbn zeta. intros Hnd Hin.
  assert (Hget : dict_get (all_children (Component.occurrences (root self)))
                   (token_of node) = Some node).
  { unfold all_children.
    pose proof (fold_dict_set_get
                  (flat_map (λ c, c :: descendants c) (Component.occurrences (root self)))
                  (token_of node) []) as Hg.
    unfold token_of in Hg at 1. rewrite Hg.
    rewrite (find_NoDup_fmap token_of); [done| |by apply elem_of_reverse].
    by rewrite fmap_reverse, reverse_Permutation. }
  split; [exact Hget|].
  unfold _iterate_through_occurrences, get_scene_configuration. cbn.
  apply list_elem_of_fmap_2.
  apply dict_get_elem in Hget.
  by apply (list_elem_of_fmap_2 snd _ (token_of node, node)).
Qed.

Lemma component_map_holds_every_occurrence_witness :
  dict_get (component_map (get_scene_configuration (init gearbox_design 0.01 0.01)))
    (token_of (HNode gear [])) = Some (HNode gear [])
  ∧ component (HNode gear [])
    ∈ _iterate_through_occurrences (get_scene_configuration (init gearbox_design 0.01 0.01)).
Proof.
  apply component_map_holds_every_occurrence.
  - vm_compute.
    repeat (apply NoDup_cons_2;
            [intros Hin;
             repeat (apply elem_of_cons in Hin as [Hin|Hin]; [discriminate|]);
             by apply elem_of_nil in Hin|]).
    apply NoDup_nil_2.
  - vm_compute. apply elem_of_cons. right. apply elem_of_cons. right. by left.
Defined.

(** * The name of the robot *)

Lemma lstrip_spec (s : string) :
  ∃ pre, s = pre +:+ lstrip s ∧ blank pre
         ∧ match lstrip s with
           | EmptyString => True
           | String a _ => is_space a = false
           end.
Proof.
  induction s as [|a s (pre & Hs & Hpre & Hhead)]; cbn [lstrip].
  - exists EmptyString. split_and!; [done|by intros a []|done].
  - destruct (is_space a) eqn:Ha.
    + exists (String a pre).
      split_and!; [change (String a s = String a (pre +:+ lstrip s)); by rewrite <- Hs| |done].
      intros b [<-|Hb]; [done|by apply Hpre].
    + exists EmptyString. split_and!; [done|by intros b []|by rewrite Ha].
Qed.

Lemma first_word_spec (s : string) :
  ∃ rest, s = first_word s +:+ rest ∧ spaceless (first_word s)
          ∧ match rest with
            | EmptyString => True
            | String a _ => is_space a = true
            end.
Proof.
  induction s as [|a s (rest & Hs & Hword & Hrest)]; cbn [first_word].
  - exists EmptyString. split_and!; [done|by intros a []|done].
  - destruct (is_space a) eqn:Ha.
    + exists (String a s). split_and!; [done|by intros b []|done].
    + exists rest.
      split_and!; [change (String a s = String a (first_word s +:+ rest)); by rewrite <- Hs| |done].
      intros b [<-|Hb]; [done|by apply Hword].
Qed.

(** X9: the property [name] is the first word of the name of the root
    component: what stands between the leading white space and the next
    white space.  It is not empty and holds no white space; a name of
    white space only raises an [IndexError]. *)
Theorem name_is_the_first_word (self : Configurator) :
  match name self with
  | Done robot_name =>
      robot_name ≠ EmptyString ∧ spaceless robot_name
      ∧ ∃ pre rest,
          Component.name (root self) = pre +:+ robot_name +:+ rest
          ∧ blank pre
          ∧ match rest with
            | EmptyString => True
            | String a _ => is_space a = true
            end
  | Raised e => e = IndexError ∧ blank (Component.name (root self))
  | _ => False
  end.
Proof.
  unfold name.
  destruct (lstrip_spec (Component.name (root self))) as (pre & Hs & Hpre & Hhead).
  destruct (lstrip (Component.name (root self))) as [|a s] eqn:Hl.
  - split; [done|]. rewrite Hs.
    replace (pre +:+ EmptyString) with pre; [done|].
    clear. induction pre as [|b pre IH]; [done|].
    change (String b pre = String b (pre +:+ EmptyString)). by rewrite <- IH.
  - destruct (first_word_spec (String a s)) as (rest & Hw & Hword & Hrest).
    split_and!; [|done|].
    + cbn. by rewrite Hhead.
    + exists pre, rest. by rewrite <- Hw.
Qed.

(** * The base link *)

Lemma find_first_that {A : Type} (f : A → bool) (l : list A) (x : A) :
  find f l = Some x → first_that f l x.
Proof.
  induction l as [|a l IH]; cbn; [done|].
  destruct (f a) eqn:Ha.
  - intros [= ->]. exists 0%nat. split_and!; [done|done|]. intros j y Hj. lia.
  - intros (i & Hi & Hx & Hbefore)%IH. exists (S i). split_and!; [done|done|].
    intros [|j] y Hj; cbn; [by intros [= <-]|].
    apply Hbefore. lia.
Qed.

(** X10: [_base] takes the first grounded occurrence of the component map
    as the base link and registers it as ["base_link"] in both name tables;
    without a grounded occurrence it keeps a base link that was set before,
    and is fatal when there is none. *)
Theorem base_is_the_first_grounded_occurrence (self : Configurator) :
  match _base self with
  | Done self' =>
      ∃ b, base_link self' = Some b
           ∧ links_by_token self' !! Occurrence.entityToken b = Some "base_link"
           ∧ links_by_name self' !! "base_link" = Some b
           ∧ (first_that Occurrence.isGrounded (_iterate_through_occurrences self) b
              ∨ base_link self = Some b
                ∧ ∀ oc, oc ∈ _iterate_through_occurrences self →
                        Occurrence.isGrounded oc = false)
  | Fatal msg =>
      msg = NoGroundedOccurrence
      ∧ base_link self = None
      ∧ ∀ oc, oc ∈ _iterate_through_occurrences self →
              Occurrence.isGrounded oc = false
  | _ => False
  end.
Proof.
  unfold _base.
  destruct (find Occurrence.isGrounded (_iterate_through_occurrences self))
    as [oc|] eqn:Hf.
  - cbn. exists oc. rewrite !lookup_insert_eq.
    split_and!; [done..|]. left. by apply find_first_that.
  - assert (Hnone : ∀ oc, oc ∈ _iterate_through_occurrences self →
                          Occurrence.isGrounded oc = false).
    { intros oc Hin. apply (find_none _ _ Hf). by apply list_elem_of_In. }
    destruct (base_link self) as [b|] eqn:Hb; cbn.
    + exists b. rewrite !lookup_insert_eq. split_and!; [done..|]. by right.
    + done.
Qed.


(** * The bodies below an occurrence *)

Lemma subtract_hidden_visible (mass : float) (body_lst : list BRepBody.t) :
  (∀ body, body ∈ body_lst → BRepBody.isLightBulbOn body = true) →
  subtract_hidden mass body_lst = mass.
Proof.
  unfold subtract_hidden. induction body_lst as [|b l IH]; intros Hall; cbn; [done|].
  rewrite (Hall b) by left. cbn. apply IH. intros body Hb. apply Hall. by right.
Qed.

Lemma leaf_has_nothing_below (node : Hierarchy) :
  get_children node = [] → get_all_children node = [] ∧ childs node = [].
Proof.
  unfold childs, get_all_children. by intros ->.
Qed.

Lemma childs_of_leaves (node : Hierarchy) :
  (∀ c, c ∈ get_children node → get_children c = []) → childs node = [].
Proof.
  intros Hleaves.
  assert (Hd : descendants node = get_children node).
  { rewrite descendants_children.
    induction (get_children node) as [|c cs IH]; cbn; [done|].
    rewrite (descendants_children c), (Hleaves c) by left. cbn.
    rewrite IH; [done|]. intros c' Hc'. apply Hleaves. by right. }
  unfold childs.
  assert (Hvals : ∀ v, v ∈ (get_all_children node).*2 → get_children v = []).
  { intros v ([k v'] & -> & Hin)%list_elem_of_fmap. cbn.
    destruct (get_all_children_maps_tokens_to_nodes_aux node) as (Hnd & Hget & _).
    apply (dict_get_NoDup _ _ _ Hnd) in Hin. apply Hget in Hin as [Hin _].
    rewrite Hd in Hin. by apply Hleaves. }
  induction ((get_all_children node).*2) as [|v vs IH]; cbn; [done|].
  rewrite (Hvals v) by left. cbn. apply IH. intros v' Hv'. apply Hvals. by right.
Qed.

(** X11: for an occurrence without child occurrences [get_flat_body]
    returns the occurrence's own bodies, so its link gets the host's mass
    less the mass of each of its own hidden bodies, and the host's mass
    when all its bodies are visible. *)
Theorem leaf_mass_is_less_its_hidden_bodies (self : Configurator)
    (oc : Occurrence.t) (node : Hierarchy) :
  dict_get (component_map self) (Occurrence.entityToken oc) = Some node →
  get_children node = [] →
  get_flat_body node = Done (Occurrence.bRepBodies (component node))
  ∧ corrected_mass self oc
    = Done (subtract_hidden (Occurrence.mass oc) (Occurrence.bRepBodies (component node)))
  ∧ ((∀ body, body ∈ Occurrence.bRepBodies (component node) →
              BRepBody.isLightBulbOn body = true) →
     corrected_mass self oc = Done (Occurrence.mass oc)).
Proof.
  intros Hnode Hleaf.
  assert (Hflat : get_flat_body node = Done (Occurrence.bRepBodies (component node))).
  { rewrite get_flat_body_done. unfold flat_body_nodes.
    destruct (leaf_has_nothing_below node Hleaf) as [-> ->]. cbn.
    by rewrite app_nil_r. }
  assert (Hmass : corrected_mass self oc
                  = Done (subtract_hidden (Occurrence.mass oc)
                            (Occurrence.bRepBodies (component node)))).
  { unfold corrected_mass. rewrite Hnode. cbn -[get_flat_body]. by rewrite Hflat. }
  split_and!; [done|done|].
  intros Hvisible. by rewrite Hmass, subtract_hidden_visible.
Qed.

Lemma leaf_mass_is_less_its_hidden_bodies_witness :
  corrected_mass (get_scene_configuration (init gearbox_design 0.01 0.01)) gear
  = Done (subtract_hidden (Occurrence.mass gear) [hidden_body]).
Proof.
  refine (proj1 (proj2 (leaf_mass_is_less_its_hidden_bodies
                          (get_scene_configuration (init gearbox_design 0.01 0.01))
                          gear (HNode gear []) _ _))).
  - vm_compute; reflexivity.
  - reflexivity.
Defined.

(** X12: for an occurrence whose child occurrences have no children of
    their own, [get_flat_body] returns no body at all: neither the bodies
    of the occurrence nor those of its children, so its link gets the
    host's mass, whatever is hidden. *)
Theorem flat_body_skips_one_level (self : Configurator)
    (oc : Occurrence.t) (node : Hierarchy) :
  dict_get (component_map self) (Occurrence.entityToken oc) = Some node →
  get_children node ≠ [] →
  (∀ c, c ∈ get_children node → get_children c = []) →
  get_flat_body node = Done []
  ∧ corrected_mass self oc = Done (Occurrence.mass oc).
Proof.
  intros Hnode Hcs Hleaves.
  assert (Hflat : get_flat_body node = Done []).
  { rewrite get_flat_body_done. unfold flat_body_nodes.
    rewrite (childs_of_leaves node Hleaves). cbn.
    destruct ((get_all_children node).*2) as [|v vs] eqn:Hvals; [|done].
    exfalso. destruct (get_children node) as [|c cs] eqn:Hch; [done|].
    destruct (get_all_children_maps_tokens_to_nodes_aux node) as (_ & _ & Hhas).
    destruct (Hhas c) as [v Hv].
    { rewrite descendants_children, Hch. cbn. by left. }
    apply dict_get_elem in Hv.
    apply (list_elem_of_fmap_2 snd) in Hv. rewrite Hvals in Hv.
    by apply elem_of_nil in Hv. }
  split; [done|]. unfold corrected_mass. rewrite Hnode. cbn -[get_flat_body]. by rewrite Hflat.
Qed.

Lemma flat_body_skips_one_level_witness :
  get_flat_body gearbox_node = Done []
  ∧ corrected_mass (get_scene_configuration (init gearbox_design 0.01 0.01)) gearbox
    = Done (Occurrence.mass gearbox).
Proof.
  apply flat_body_skips_one_level.
  - vm_compute; reflexivity.
  - discriminate.
  - intros c Hc. apply list_elem_of_singleton in Hc. by subst c.
Defined.


(** * What the steps of a run keep *)

(** A property of the state that [get_name] and the assignments of a step
    keep is kept by the step. *)
Section stable.
Context `{Utils} `{Host}.
Variable Q : Configurator → Prop.
Hypothesis Q_get_name : ∀ oc self, Q self → Q (get_name oc self).2.
Hypothesis Q_joints_dict : ∀ self d, Q self → Q (set_joints_dict self d).
Hypothesis Q_color_dict : ∀ self d, Q self → Q (set_color_dict self d).
Hypothesis Q_material_dict : ∀ self d, Q self → Q (set_material_dict self d).
Hypothesis Q_body_dict : ∀ self d, Q self → Q (set_body_dict self d).
Hypothesis Q_link_origins : ∀ self d, Q self → Q (set_link_origins self d).
Hypothesis Q_joints : ∀ self d, Q self → Q (set_joints self d).

Lemma process_joint_stable (joint : HostJoint.t) (self self' : Configurator) :
  Q self → process_joint joint self = Done self' → Q self'.
Proof.
  unfold process_joint. intros HQ Hp.
  destruct (HostJoint.healthState joint); try done; try (by injection Hp as <-).
  destruct (HostJoint.isValid joint); cbn [negb] in Hp; [|by injection Hp as <-].
  bind_inv Hp joint_type Hty. bind_inv Hp g1 Hone. bind_inv Hp g2 Htwo.
  pose proof (Q_get_name (HostJoint.occurrenceOne joint) self HQ) as HQ1.
  destruct (get_name (HostJoint.occurrenceOne joint) self) as [n1 self1].
  cbn [snd] in HQ1.
  pose proof (Q_get_name (HostJoint.occurrenceTwo joint) self1 HQ1) as HQ2.
  destruct (get_name (HostJoint.occurrenceTwo joint) self1) as [n2 self2].
  cbn [snd] in HQ2.
  destruct (joint_order self2); bind_inv Hp info Hinfo; injection Hp as <-;
    by apply Q_joints_dict.
Qed.

Lemma process_group_stable (group : RigidGroup.t) (self : Configurator) :
  Q self → Q (process_group group self).
Proof.
  unfold process_group.
  destruct (RigidGroup.occurrences group) as [|parent_occ others]; [done|].
  revert self. induction others as [|occ others IH]; intros self HQ; cbn [fold_left];
    [done|].
  apply IH. unfold process_group_occurrence.
  pose proof (Q_get_name parent_occ self HQ) as HQ1.
  destruct (get_name parent_occ self) as [n1 self1]. cbn [snd] in HQ1.
  pose proof (Q_get_name occ self1 HQ1) as HQ2.
  destruct (get_name occ self1) as [n2 self2]. cbn [snd] in HQ2.
  by apply Q_joints_dict.
Qed.

Lemma joints_stable (self self' : Configurator) :
  Q self → _joints self = Done self' → Q self'.
Proof.
  unfold _joints. intros HQ Hj. bind_inv Hj self1 Hloop. injection Hj as <-.
  assert (HQ1 : Q self1).
  { destruct (for_each_inv (λ _, True) Q process_joint
                (Component.allJoints (root self))) with (s := self) as [_ Hkeep];
      [|done|by apply Hkeep].
    intros joint s _ Hs.
    split; [by eapply ends_with_mono; [|apply process_joint_ends]|].
    intros s'. by apply process_joint_stable. }
  clear Hloop. generalize (Component.allRigidGroups (root self1)) as groups.
  intros groups. revert self1 HQ1.
  induction groups as [|group groups IH]; intros s Hs; cbn [fold_left]; [done|].
  by apply IH, process_group_stable.
Qed.

Lemma material_of_stable (occ : Occurrence.t) (self : Configurator) :
  Q self → Q (material_of occ self).
Proof.
  unfold material_of. intros HQ.
  destruct (get_appearance occ) as [[prop_name [red green blue opacity|]]|].
  1: pose proof (Q_get_name occ _ (Q_color_dict self
       (<[format_name (convert_german prop_name) :=
            ColorRGBA (channel red) (channel green) (channel blue) (channel opacity)]>
          (color_dict self)) HQ)) as HQ1.
  2,3: pose proof (Q_get_name occ self HQ) as HQ1.
  all: destruct (get_name occ _) as [occ_name self1]; cbn [snd] in HQ1;
    by apply Q_material_dict.
Qed.

Lemma materials_stable (self : Configurator) : Q self → Q (_materials self).
Proof.
  unfold _materials. intros HQ.
  set (self0 := set_color_dict self _).
  assert (HQ0 : Q self0) by by apply Q_color_dict.
  generalize (_iterate_through_occurrences self0) as occs. intros occs.
  clearbody self0. revert self0 HQ0.
  induction occs as [|occ occs IH]; intros s Hs; cbn [fold_left]; [done|].
  by apply IH, material_of_stable.
Qed.

Lemma collect_bodies_stable (oc : Occurrence.t) (self : Configurator) :
  Q self → Q (collect_bodies oc self).
Proof.
  unfold collect_bodies. intros HQ.
  pose proof (Q_get_name oc self HQ) as HQ1.
  destruct (get_name oc self) as [occ_name self1]. cbn [snd] in HQ1.
  by apply Q_body_dict.
Qed.

Lemma build_prepare_stable (self self' : Configurator) (robot_name : string)
    (occurrences : gmap string (list string)) :
  Q self → build_prepare self = Done (robot_name, occurrences, self') → Q self'.
Proof.
  unfold build_prepare. intros HQ Hs.
  bind_inv Hs rn Hrn.
  set (self0 := set_link_origins (set_body_dict self ∅) ∅) in *.
  assert (HQ0 : Q self0) by by apply Q_link_origins, Q_body_dict.
  assert (HQ1 : Q (fold_left (λ self oc, collect_bodies oc self)
                     (_iterate_through_occurrences self0) self0)).
  { generalize (_iterate_through_occurrences self0) as occs. intros occs.
    clear Hs. clearbody self0. revert self0 HQ0.
    induction occs as [|oc occs IH]; intros s Hq; cbn [fold_left]; [done|].
    by apply IH, collect_bodies_stable. }
  set (self1 := fold_left _ _ self0) in *.
  bind_inv Hs base0 Hbase. injection Hs as <- <- <-.
  by apply Q_link_origins.
Qed.

End stable.

Section run_steps.
Context `{Utils} `{Host}.

Lemma get_name_other (oc : Occurrence.t) (self : Configurator) :
  ∃ by_token by_name, (get_name oc self).2 = set_names self by_token by_name.
Proof.
  unfold get_name.
  destruct (links_by_token self !! Occurrence.entityToken oc); cbn; [|by eexists _, _].
  exists (links_by_token self), (links_by_name self). by destruct self.
Qed.

Lemma get_name_known (oc : Occurrence.t) (self : Configurator) (link_name : string) :
  links_by_token self !! Occurrence.entityToken oc = Some link_name →
  get_name oc self = (link_name, self).
Proof. unfold get_name. by intros ->. Qed.

Lemma base_done (self self' : Configurator) :
  _base self = Done self' →
  ∃ b, base_link self' = Some b
       ∧ links_by_token self'
         = <[Occurrence.entityToken b := "base_link"]> (links_by_token self)
       ∧ links_by_name self' = <["base_link" := b]> (links_by_name self)
       ∧ joints self' = joints self
       ∧ material_dict self' = material_dict self
       ∧ color_dict self' = color_dict self.
Proof.
  unfold _base.
  destruct (find Occurrence.isGrounded (_iterate_through_occurrences self)) as [oc|].
  - cbn. intros [= <-]. by exists oc.
  - destruct (base_link self) as [b|] eqn:Hb; cbn; [|done].
    intros [= <-]. by exists b.
Qed.

(** The base link keeps its name. *)
Lemma base_name_stable (b : Occurrence.t) (oc : Occurrence.t) (self : Configurator) :
  base_link self = Some b
  ∧ links_by_token self !! Occurrence.entityToken b = Some "base_link" →
  base_link (get_name oc self).2 = Some b
  ∧ links_by_token (get_name oc self).2 !! Occurrence.entityToken b = Some "base_link".
Proof.
  intros [Hb Ht]. split; [|by apply get_name_stable].
  by destruct (get_name_other oc self) as (bt & bn & ->).
Qed.

Lemma build_prepare_done (self self' : Configurator) (robot_name : string)
    (occurrences : gmap string (list string)) :
  build_prepare self = Done (robot_name, occurrences, self') →
  ∃ b, base_link self' = Some b
       ∧ link_origins self' !! "base_link" = Some (Occurrence.transform2 b).
Proof.
  unfold build_prepare. intros Hs.
  bind_inv Hs rn Hrn. bind_inv Hs b Hb. injection Hs as <- <- <-.
  exists b. cbn. rewrite lookup_insert_eq. split; [|done].
  unfold assert_some in Hb. by destruct (base_link _) as [b'|]; [injection Hb as ->|].
Qed.

End run_steps.

(** X13: when a run comes to line 619 of [_build], after [_base],
    [_joints], [_materials] and lines 573-618, the base link is set, its
    occurrence is named ["base_link"], so that [get_name] returns this name
    for it and leaves the state as it is, and the pose stored under
    ["base_link"] is the occurrence's [transform2]. *)
Theorem base_link_is_named `{Utils} `{Host} (self self1 self2 self3 : Configurator)
    (robot_name : string) (occurrences : gmap string (list string)) :
  _base self = Done self1 →
  _joints self1 = Done self2 →
  build_prepare (_materials self2) = Done (robot_name, occurrences, self3) →
  ∃ b, base_link self3 = Some b
       ∧ get_name b self3 = ("base_link", self3)
       ∧ link_origins self3 !! "base_link" = Some (Occurrence.transform2 b).
Proof.
  intros Hbase Hj Hs.
  apply base_done in Hbase as (b & Hb & Ht & _).
  exists b.
  set (Q := λ s : Configurator,
         base_link s = Some b
         ∧ links_by_token s !! Occurrence.entityToken b = Some "base_link").
  assert (HQ1 : Q self1) by (split; [done|by rewrite Ht, lookup_insert_eq]).
  assert (HQ2 : Q self2).
  { eapply (joints_stable Q); [| |exact HQ1|exact Hj];
      [intros oc s; apply base_name_stable|by intros s d]. }
  assert (HQ3 : Q (_materials self2)).
  { apply (materials_stable Q); [intros oc s; apply base_name_stable|by intros s d..|done]. }
  assert (HQ4 : Q self3).
  { eapply (build_prepare_stable Q); [| | |exact HQ3|exact Hs];
      [intros oc s; apply base_name_stable|by intros s d..]. }
  destruct HQ4 as [Hb4 Ht4].
  apply build_prepare_done in Hs as (b' & Hb' & Hlo).
  rewrite Hb4 in Hb'. injection Hb' as <-.
  split_and!; [done| |done]. by apply get_name_known.
Qed.

Lemma base_link_is_named_witness :
  ∃ b, base_link (state_of (before_first_link swapped_design)) = Some b
       ∧ get_name b (state_of (before_first_link swapped_design))
         = ("base_link", state_of (before_first_link swapped_design))
       ∧ link_origins (state_of (before_first_link swapped_design)) !! "base_link"
         = Some (Occurrence.transform2 b).
Proof.
  apply (base_link_is_named
           (get_scene_configuration (init swapped_design 0.01 0.01))
           (state_of (_base (get_scene_configuration (init swapped_design 0.01 0.01))))
           (state_of (after_joints swapped_design))
           (state_of (before_first_link swapped_design))
           "robot"
           (incidence (joints_dict (state_of (before_first_link swapped_design)))));
    vm_compute; reflexivity.
Defined.

(** * The names and the joints of a run *)

Ltac other_fields :=
  let oc := fresh "oc" in
  let s := fresh "s" in
  let Hq := fresh "Hq" in
  let bt := fresh "bt" in
  let bn := fresh "bn" in
  intros oc s Hq; destruct (get_name_other oc s) as (bt & bn & ->); exact Hq.

Section names_of_a_run.
Context `{Utils} `{Host} `{!UtilsFresh}.

Lemma get_name_bijective (oc : Occurrence.t) (self : Configurator) :
  names_bijective self → names_bijective (get_name oc self).2.
Proof.
  intros [Hc Hr]. split; [by apply get_name_consistent|].
  unfold get_name.
  destruct (links_by_token self !! Occurrence.entityToken oc) eqn:Hl; cbn; [done|].
  intros link_name oc' Hn. apply lookup_insert_Some in Hn as [[<- <-]|[Hne Hn]].
  - by rewrite lookup_insert_eq.
  - apply Hr in Hn. rewrite lookup_insert_ne; [done|].
    intros Heq. rewrite <- Heq in Hn. congruence.
Qed.

Lemma base_names_bijective (self self1 : Configurator) :
  links_by_token self = ∅ → links_by_name self = ∅ →
  _base self = Done self1 → names_bijective self1.
Proof.
  intros Ht0 Hn0 Hbase.
  apply base_done in Hbase as (b & Hb & Ht & Hn & _).
  split.
  - intros token link_name Hl. rewrite Ht, Ht0 in Hl.
    apply lookup_insert_Some in Hl as [[<- <-]|[_ Hl]];
      [|by rewrite lookup_empty in Hl].
    exists b. by rewrite Hn, lookup_insert_eq.
  - intros link_name oc Hl. rewrite Hn, Hn0 in Hl.
    apply lookup_insert_Some in Hl as [[<- <-]|[_ Hl]];
      [|by rewrite lookup_empty in Hl].
    by rewrite Ht, lookup_insert_eq.
Qed.

End names_of_a_run.

(** X14: from empty name tables, [_base], [_joints], [_materials] and
    lines 573-618 of [_build], the steps of a run that give names, each
    leave the two name tables inverse to each other: every named entity
    token leads to an occurrence with this token and back, and no two
    entity tokens share a link name. *)
Theorem names_are_one_to_one `{Utils} `{Host} `{!UtilsFresh}
    (self self1 self2 self3 : Configurator)
    (robot_name : string) (occurrences : gmap string (list string)) :
  links_by_token self = ∅ → links_by_name self = ∅ →
  _base self = Done self1 →
  _joints self1 = Done self2 →
  build_prepare (_materials self2) = Done (robot_name, occurrences, self3) →
  names_bijective self1 ∧ names_bijective self2
  ∧ names_bijective (_materials self2) ∧ names_bijective self3
  ∧ ∀ token1 token2 link_name,
      links_by_token self3 !! token1 = Some link_name →
      links_by_token self3 !! token2 = Some link_name →
      token1 = token2.
Proof.
  intros Ht0 Hn0 Hbase Hj Hs.
  assert (Hn1 : names_bijective self1) by by eapply base_names_bijective.
  assert (Hn2 : names_bijective self2).
  { eapply (joints_stable names_bijective); [| |exact Hn1|exact Hj];
      [apply get_name_bijective|by intros s d]. }
  assert (Hn3 : names_bijective (_materials self2)).
  { apply (materials_stable names_bijective);
      [apply get_name_bijective|by intros s d..|done]. }
  assert (Hn4 : names_bijective self3).
  { eapply (build_prepare_stable names_bijective); [| | |exact Hn3|exact Hs];
      [apply get_name_bijective|by intros s d..]. }
  split_and!; [done..|]. intros token1 token2 link_name.
  destruct Hn4 as [Hc _]. by apply names_consistent_inj.
Qed.

Lemma names_are_one_to_one_witness :
  names_bijective (state_of (before_first_link swapped_design)).
Proof.
  refine (proj1 (proj2 (proj2 (proj2
            (names_are_one_to_one
               (get_scene_configuration (init swapped_design 0.01 0.01))
               (state_of (_base (get_scene_configuration (init swapped_design 0.01 0.01))))
               (state_of (after_joints swapped_design))
               (state_of (before_first_link swapped_design))
               "robot"
               (incidence (joints_dict (state_of (before_first_link swapped_design))))
               eq_refl eq_refl _ _ _)))));
    vm_compute; reflexivity.
Defined.

Section run_joints.
Context `{Utils} `{Host}.


End run_joints.





(** * The bodies and the materials of a run *)

Lemma extend_visible (body_dict : gmap string (list BRepBody.t)) (key : string)
    (body : BRepBody.t) :
  BRepBody.isLightBulbOn body = true →
  only_visible_bodies body_dict →
  only_visible_bodies (extend body_dict key [body]).
Proof.
  intros Hbody Hall k bodies. unfold extend.
  intros [[<- <-]|[_ Hk]]%lookup_insert_Some; [|by apply (Hall k bodies)].
  split; [by destruct (default [] (body_dict !! key))|].
  intros b [Hb|Hb%list_elem_of_singleton]%elem_of_app; [|by subst b].
  destruct (body_dict !! key) as [old|] eqn:Hold; cbn in Hb;
    [|by apply elem_of_nil in Hb].
  by apply (Hall key old Hold).
Qed.

Section run_bodies.
Context `{Utils} `{Host}.

Lemma collect_bodies_visible (oc : Occurrence.t) (self : Configurator) :
  only_visible_bodies (body_dict self) →
  only_visible_bodies (body_dict (collect_bodies oc self)).
Proof.
  unfold collect_bodies. intros Hall.
  destruct (get_name_other oc self) as (bt & bn & Hother).
  destruct (get_name oc self) as [occ_name self1]. cbn [snd] in Hother. subst self1.
  cbn.
  generalize (default [] (body_mapper self !! Occurrence.entityToken oc)) as body_lst.
  intros body_lst. revert Hall. generalize (body_dict self) as bd.
  induction body_lst as [|body body_lst IH]; intros bd Hall; cbn [fold_left]; [done|].
  apply IH. destruct (BRepBody.isLightBulbOn body) eqn:Hb; [|done].
  by apply extend_visible.
Qed.

Lemma collected_visible (occs : list Occurrence.t) :
  ∀ self : Configurator,
    only_visible_bodies (body_dict self) →
    only_visible_bodies
      (body_dict (fold_left (λ self oc, collect_bodies oc self) occs self)).
Proof.
  induction occs as [|oc occs IH]; intros self Hs; cbn [fold_left]; [exact Hs|].
  apply IH, collect_bodies_visible, Hs.
Qed.

Lemma prepared_bodies_visible (self self' : Configurator) (robot_name : string)
    (occurrences : gmap string (list string)) :
  build_prepare self = Done (robot_name, occurrences, self') →
  only_visible_bodies (body_dict self').
Proof.
  unfold build_prepare. intros Hs.
  bind_inv Hs rn Hrn. bind_inv Hs b Hb. injection Hs as <- <- <-.
  cbn [body_dict set_link_origins].
  apply collected_visible. cbn [body_dict set_link_origins set_body_dict].
  intros k bodies Hk. by rewrite lookup_empty in Hk.
Qed.

End run_bodies.

(** X17: after the first loop of [_build], lines 573-618, [body_dict],
    from which the meshes are exported, holds visible bodies only, and no
    key with an empty list, whatever it held before. *)
Theorem body_dict_holds_visible_bodies `{Utils} `{Host} (self self' : Configurator)
    (robot_name : string) (occurrences : gmap string (list string)) :
  build_prepare self = Done (robot_name, occurrences, self') →
  only_visible_bodies (body_dict self').
Proof. apply prepared_bodies_visible. Qed.

Lemma body_dict_holds_visible_bodies_witness :
  only_visible_bodies (body_dict (state_of (before_first_link gearbox_design))).
Proof.
  apply (body_dict_holds_visible_bodies
           (_materials (state_of (after_joints gearbox_design)))
           (state_of (before_first_link gearbox_design)) "robot"
           (incidence (joints_dict (state_of (before_first_link gearbox_design))))).
  vm_compute. reflexivity.
Defined.

Section materials_of_a_run.
Context `{Utils} `{Host}.

(** The last step of [material_of]: the entry of the occurrence. *)
Lemma material_entry (occ : Occurrence.t) (self : Configurator) (material : string) :
  is_Some (color_dict self !! material) →
  is_Some (color_dict self !! "silver_default") →
  materials_registered self →
  let self' :=
    set_material_dict (get_name occ self).2
      (<[format_name (get_name occ self).1 := material]>
         (material_dict (get_name occ self).2)) in
  (is_Some (color_dict self' !! "silver_default") ∧ materials_registered self')
  ∧ (∀ token link_name, links_by_token self !! token = Some link_name →
                        links_by_token self' !! token = Some link_name)
  ∧ (∀ key, is_Some (material_dict self !! key) → is_Some (material_dict self' !! key))
  ∧ (∃ link_name, links_by_token self' !! Occurrence.entityToken occ = Some link_name
                  ∧ is_Some (material_dict self' !! format_name link_name))
  ∧ component_map self' = component_map self.
Proof.
  intros Hm Hsilver Hreg. cbn zeta.
  pose proof (get_name_registered occ self) as Hown.
  pose proof (get_name_stable occ self) as Hstable.
  destruct (get_name_other occ self) as (bt & bn & Hother).
  destruct (get_name occ self) as [occ_name self1]. cbn [fst snd] in *. subst self1.
  cbn in *. split_and!.
  - done.
  - intros key m Hk. cbn in Hk |- *.
    apply lookup_insert_Some in Hk as [[<- <-]|[_ Hk]]; [done|by apply (Hreg key)].
  - done.
  - intros key Hk. apply lookup_insert_is_Some'. by right.
  - exists occ_name. split; [done|]. apply lookup_insert_is_Some'. by left.
  - done.
Qed.

Lemma material_of_spec (occ : Occurrence.t) (self : Configurator) :
  is_Some (color_dict self !! "silver_default") →
  materials_registered self →
  (is_Some (color_dict (material_of occ self) !! "silver_default")
   ∧ materials_registered (material_of occ self))
  ∧ (∀ token link_name, links_by_token self !! token = Some link_name →
                        links_by_token (material_of occ self) !! token = Some link_name)
  ∧ (∀ key, is_Some (material_dict self !! key) →
            is_Some (material_dict (material_of occ self) !! key))
  ∧ (∃ link_name,
       links_by_token (material_of occ self) !! Occurrence.entityToken occ
       = Some link_name
       ∧ is_Some (material_dict (material_of occ self) !! format_name link_name))
  ∧ component_map (material_of occ self) = component_map self.
Proof.
  intros Hsilver Hreg. unfold material_of.
  destruct (get_appearance occ) as [[prop_name [red green blue opacity|]]|].
  2,3: pose proof (material_entry occ self "silver_default" Hsilver Hsilver Hreg) as He;
    cbn zeta in He; by destruct (get_name occ self) as [occ_name self1].
  set (color_name := format_name (convert_german prop_name)).
  set (self0 := set_color_dict self _).
  assert (Hc0 : is_Some (color_dict self0 !! color_name)).
  { cbn. apply lookup_insert_is_Some'. by left. }
  assert (Hs0 : is_Some (color_dict self0 !! "silver_default")).
  { cbn. apply lookup_insert_is_Some'. by right. }
  assert (Hr0 : materials_registered self0).
  { intros key m Hk. cbn in Hk |- *. apply lookup_insert_is_Some'. right.
    by apply (Hreg key). }
  pose proof (material_entry occ self0 color_name Hc0 Hs0 Hr0) as He.
  cbn zeta in He. by destruct (get_name occ self0) as [occ_name self1].
Qed.

Lemma materials_fold (occs : list Occurrence.t) :
  ∀ self : Configurator,
    is_Some (color_dict self !! "silver_default") →
    materials_registered self →
    let self' := fold_left (λ self occ, material_of occ self) occs self in
    materials_registered self'
    ∧ (∀ token link_name, links_by_token self !! token = Some link_name →
                          links_by_token self' !! token = Some link_name)
    ∧ (∀ key, is_Some (material_dict self !! key) → is_Some (material_dict self' !! key))
    ∧ (∀ occ, occ ∈ occs →
         ∃ link_name,
           links_by_token self' !! Occurrence.entityToken occ = Some link_name
           ∧ is_Some (material_dict self' !! format_name link_name))
    ∧ component_map self' = component_map self.
Proof.
  induction occs as [|occ occs IH]; intros self Hsilver Hreg; cbn zeta; cbn [fold_left].
  - split_and!; [done..| |done]. intros occ Hin. by apply elem_of_nil in Hin.
  - destruct (material_of_spec occ self Hsilver Hreg)
      as ((Hs1 & Hr1) & Ht1 & Hk1 & (n & Hn & Hmat) & Hc1).
    destruct (IH (material_of occ self) Hs1 Hr1) as (Hr2 & Ht2 & Hk2 & Hocc2 & Hc2).
    split_and!.
    + done.
    + intros token link_name Hl. by apply Ht2, Ht1.
    + intros key Hk. by apply Hk2, Hk1.
    + intros oc [->|Hin]%elem_of_cons; [|by apply Hocc2].
      exists n. split; [by apply Ht2|by apply Hk2].
    + by rewrite Hc2.
Qed.

Lemma materials_spec (self : Configurator) :
  materials_registered self →
  materials_registered (_materials self)
  ∧ ∀ occ, occ ∈ _iterate_through_occurrences (_materials self) →
      ∃ link_name,
        links_by_token (_materials self) !! Occurrence.entityToken occ = Some link_name
        ∧ is_Some (material_dict (_materials self) !! format_name link_name).
Proof.
  intros Hreg.
  set (self0 :=
         set_color_dict self
           (<["silver_default" := ColorLiteral "0.700 0.700 0.700 1.000"]>
              (color_dict self))).
  assert (Hs0 : is_Some (color_dict self0 !! "silver_default")).
  { cbn. apply lookup_insert_is_Some'. by left. }
  assert (Hr0 : materials_registered self0).
  { intros key m Hk. cbn in Hk |- *. apply lookup_insert_is_Some'. right.
    by apply (Hreg key). }
  destruct (materials_fold (_iterate_through_occurrences self0) self0 Hs0 Hr0)
    as (Hr3 & _ & _ & Hocc3 & Hcm3).
  change (fold_left (λ self occ, material_of occ self)
            (_iterate_through_occurrences self0) self0)
    with (_materials self) in Hr3, Hocc3, Hcm3.
  split; [exact Hr3|].
  intros occ Hin. apply Hocc3. unfold _iterate_through_occurrences in Hin |- *.
  by rewrite Hcm3 in Hin.
Qed.

End materials_of_a_run.

(** X18: [_materials] gives every occurrence of the component map an
    entry of [material_dict], under the formatted name of its link, and
    every material that an entry names is a key of [color_dict], when this
    was so for the entries at the start: [link_xml] finds the material of
    a link, and the materials file defines it. *)
Theorem every_link_material_is_defined `{Utils} `{Host} (self : Configurator) :
  materials_registered self →
  materials_registered (_materials self)
  ∧ ∀ occ, occ ∈ _iterate_through_occurrences (_materials self) →
      ∃ link_name,
        links_by_token (_materials self) !! Occurrence.entityToken occ = Some link_name
        ∧ is_Some (material_dict (_materials self) !! format_name link_name).
Proof. apply materials_spec. Qed.

Lemma every_link_material_is_defined_witness :
  materials_registered
    (_materials (get_scene_configuration (init swapped_design 0.01 0.01))).
Proof.
  assert (Hreg : materials_registered
                   (get_scene_configuration (init swapped_design 0.01 0.01))).
  { intros key m Hk. exfalso. revert Hk. apply lookup_empty_Some. }
  exact (proj1 (every_link_material_is_defined _ Hreg)).
Defined.

(** * The tolerance check *)

Module FloatSymmetry.
Import SpecFloat FloatAxioms.
Local Open Scope Z_scope.

Lemma SFabs_round_aux (s s' : bool) (m e : Z) (l : location) :
  SFabs (binary_round_aux prec emax s m e l)
  = SFabs (binary_round_aux prec emax s' m e l).
Proof.
  unfold binary_round_aux.
  destruct (shr_fexp prec emax m e l) as [mrs1 e1].
  destruct (shr_fexp prec emax _ e1 loc_Exact) as [mrs2 e2].
  destruct (shr_m mrs2); [reflexivity| |reflexivity].
  by destruct (e2 <=? emax - prec).
Qed.

Lemma SFabs_normalize_opp (m e : Z) :
  SFabs (binary_normalize prec emax m e false)
  = SFabs (binary_normalize prec emax (- m) e false).
Proof.
  destruct m as [|p|p];
    [reflexivity
    |change (- Z.pos p) with (Z.neg p)
    |change (- Z.neg p) with (Z.pos p)];
    unfold binary_normalize, binary_round;
    destruct (shl_align _ _ _) as [mz ez]; apply SFabs_round_aux.
Qed.

Lemma SFabs_sub_comm (x y : spec_float) :
  SFabs (SFsub prec emax x y) = SFabs (SFsub prec emax y x).
Proof.
  destruct x as [sx|sx| |sx mx ex], y as [sy|sy| |sy my ey];
    try reflexivity; try (by destruct sx, sy).
  unfold SFsub. rewrite (Z.min_comm ey ex).
  rewrite SFabs_normalize_opp. f_equal. f_equal. lia.
Qed.

Lemma abs_sub_comm (x y : float) : Prim2SF (abs (x - y)) = Prim2SF (abs (y - x)).
Proof. rewrite !abs_spec, !sub_spec. apply SFabs_sub_comm. Qed.

Lemma abs_sub_self (x : float) :
  Prim2SF (abs (x - x))
  = if is_finite x then S754_zero false else S754_nan.
Proof.
  unfold is_finite, is_nan, is_infinity.
  rewrite !eqb_spec, !abs_spec, sub_spec, FloatFacts.Prim2SF_infinity.
  destruct (Prim2SF x) as [s|s| |s m e]; try (by destruct s).
  - reflexivity.
  - rewrite FloatFacts.SFeqb_same. unfold SF64sub, SFsub.
    rewrite Z.sub_diag. by destruct s.
Qed.

End FloatSymmetry.

Lemma close_enough_float_sym (self : Configurator) (a b : float) :
  close_enough_float self a b = close_enough_float self b a.
Proof.
  unfold close_enough_float.
  by rewrite !FloatAxioms.ltb_spec, FloatSymmetry.abs_sub_comm.
Qed.

(** X19: [close_enough] is symmetric: the check of two points, and so the
    coincidence check of the two origins of a joint, does not depend on
    which point is given first; this holds for all floats, infinities and
    NaN included. *)
Theorem close_enough_is_symmetric (self : Configurator) (a b : Point3D.t) :
  close_enough self a b = close_enough self b a.
Proof.
  unfold close_enough, close_enough_array, Point3D.asArray.
  cbn -[close_enough_float].
  by rewrite (close_enough_float_sym self (Point3D.x a)),
    (close_enough_float_sym self (Point3D.y a)),
    (close_enough_float_sym self (Point3D.z a)).
Qed.

(** X20: a float is close enough to itself exactly when it is finite and
    the tolerance [eps] is positive: an infinite or NaN coordinate fails the
    check against itself, and with a tolerance that is zero, negative or
    NaN nothing is close enough to anything. *)
Theorem close_enough_to_itself (self : Configurator) (a b : float) :
  close_enough_float self a a = is_finite a && (0 <? eps self)%float
  ∧ ((0 <? eps self)%float = false → close_enough_float self a b = false).
Proof.
  unfold close_enough_float. rewrite !FloatAxioms.ltb_spec. split.
  - rewrite FloatSymmetry.abs_sub_self, FloatFacts.Prim2SF_zero.
    by destruct (is_finite a).
  - rewrite FloatAxioms.abs_spec, FloatFacts.Prim2SF_zero.
    destruct (Prim2SF (a - b)) as [s|s| |s m e], (Prim2SF (eps self)) as [s'|s'| |s' m' e'];
      cbn; try done; try (by destruct s'); try (by destruct s).
Qed.

(** * The preview of the joints *)

Section preview_count.
Context `{Utils} `{!UtilsFresh}.

Lemma process_joint_count (joint : HostJoint.t) (self self' : Configurator) :
  process_joint joint self = Done self' →
  List.length (joints_dict self')
  = (List.length (joints_dict self) + (if is_processed joint then 1 else 0))%nat
  ∧ root self' = root self.
Proof.
  intros Hp. assert (Hdone := Hp). apply process_joint_done in Hdone.
  unfold process_joint, is_processed in *.
  destruct (HostJoint.healthState joint); try done;
    try (injection Hp as <-; split; [lia|done]).
  destruct (HostJoint.isValid joint); cbn [negb] in Hp;
    [|injection Hp as <-; split; [lia|done]].
  destruct Hdone as [->|(n1 & n2 & info & Hd)].
  { exfalso. bind_inv Hp joint_type Hty. bind_inv Hp g1 Hone.
    bind_inv Hp g2 Htwo.
    destruct (get_name (HostJoint.occurrenceOne joint) self) as [m1 s1] eqn:E1.
    destruct (get_name (HostJoint.occurrenceTwo joint) s1) as [m2 s2] eqn:E2.
    pose proof (get_name_joints_dict (HostJoint.occurrenceOne joint) self) as J1.
    pose proof (get_name_joints_dict (HostJoint.occurrenceTwo joint) s1) as J2.
    rewrite E1 in J1. rewrite E2 in J2. cbn [snd] in J1, J2.
    destruct (joint_order s2); bind_inv Hp info Hinfo; injection Hp as Hp;
      apply (f_equal joints_dict) in Hp; cbn in Hp;
      rewrite J2, J1 in Hp;
      rewrite dict_set_fresh in Hp by apply rename_fresh;
      apply (f_equal List.length) in Hp; rewrite length_app in Hp; cbn in Hp; lia. }
  cbn zeta in Hd. destruct Hd as (_ & _ & _ & _ & ->). cbn.
  rewrite length_app. cbn. split; [done|].
  pose proof (get_name_other (HostJoint.occurrenceOne joint) self) as (bt1 & bn1 & E1).
  rewrite E1.
  pose proof (get_name_other (HostJoint.occurrenceTwo joint) (set_names self bt1 bn1))
    as (bt2 & bn2 & E2).
  by rewrite E2.
Qed.

Lemma for_each_joint_count (joints : list HostJoint.t) :
  ∀ self self' : Configurator,
    for_each process_joint joints self = Done self' →
    List.length (joints_dict self')
    = (List.length (joints_dict self) + List.length (filter is_processed joints))%nat
    ∧ root self' = root self.
Proof.
  induction joints as [|joint joints IH]; intros self self' Hf; cbn in Hf.
  - injection Hf as <-. cbn. split; [lia|done].
  - bind_inv Hf self1 Hp. apply process_joint_count in Hp as [Hlen Hroot].
    apply IH in Hf as [Hlen' Hroot']. split; [|congruence].
    rewrite Hlen', Hlen, filter_cons.
    destruct (is_processed joint);
      [rewrite decide_True by exact I|rewrite decide_False by (intros [])];
      cbn; lia.
Qed.

Lemma groups_count (groups : list RigidGroup.t) :
  ∀ self : Configurator,
    List.length (joints_dict (fold_left (λ self group, process_group group self)
                                groups self))
    = (List.length (joints_dict self) + group_members groups)%nat.
Proof.
  unfold group_members.
  induction groups as [|group groups IH]; intros self; cbn [fold_left].
  - cbn. lia.
  - rewrite IH, fmap_cons.
    match goal with
    | |- context [list_sum (?a :: ?l)] =>
        change (list_sum (a :: l)) with (a + list_sum l)%nat
    end.
    enough (List.length (joints_dict (process_group group self))
            = (List.length (joints_dict self)
               + pred (List.length (RigidGroup.occurrences group)))%nat) as -> by lia.
    unfold process_group.
    destruct (RigidGroup.occurrences group) as [|parent_occ others]; [cbn; lia|].
    destruct (fold_group_occurrences (RigidGroup.name group) parent_occ others self)
      as (records & Hd & Hlen & _).
    rewrite Hd, length_app, Hlen. cbn. lia.
Qed.

End preview_count.

(** X21: [get_joint_preview] adds one record for every joint that is
    healthy and can be read, and one for every occurrence of a rigid group
    past its first; no record replaces another. *)
Theorem preview_counts_the_joints `{Utils} `{!UtilsFresh}
    (self self' : Configurator) (records : list (string * JointInfo.t)) :
  get_joint_preview self = Done (records, self') →
  List.length records
  = (List.length (joints_dict self)
     + List.length (filter is_processed (Component.allJoints (root self)))
     + group_members (Component.allRigidGroups (root self)))%nat.
Proof.
  unfold get_joint_preview, _joints. intros Hp.
  bind_inv Hp self2 Hj. injection Hp as <- <-.
  bind_inv Hj self1 Hloop. injection Hj as <-.
  apply for_each_joint_count in Hloop as [Hlen Hroot].
  by rewrite groups_count, Hlen, Hroot.
Qed.

Lemma preview_counts_the_joints_witness :
  ∃ records self',
    get_joint_preview (get_scene_configuration (init gearbox_design 0.01 0.01))
    = Done (records, self')
    ∧ List.length records = 1%nat.
Proof.
  eexists _, _. split; [vm_compute; reflexivity|].
  refine (preview_counts_the_joints
            (get_scene_configuration (init gearbox_design 0.01 0.01)) _ _ _).
  vm_compute; reflexivity.
Defined.

(** * The element of a link *)

Lemma filter_tag_all {A : Type} (f : A → Element) (t : string) (l : list A) :
  (∀ x, tag (f x) = t) → filter (λ c, tag c = t) (f <$> l) = f <$> l.
Proof.
  intros Ht. induction l as [|x l IH]; [done|].
  rewrite fmap_cons, filter_cons, decide_True by apply Ht. by rewrite IH.
Qed.

Lemma filter_tag_none {A : Type} (f : A → Element) (t : string) (l : list A) :
  (∀ x, tag (f x) ≠ t) → filter (λ c, tag c = t) (f <$> l) = [].
Proof.
  intros Ht. induction l as [|x l IH]; [done|].
  by rewrite fmap_cons, filter_cons, decide_False by apply Ht.
Qed.

(** X22: the element of a link has one [inertial] element and as many
    [collision] as [visual] elements: one for each mesh of the link when
    the bodies are exported as separate meshes, else one when the link is
    visible and none when it is not. *)
Theorem link_xml_has_a_collision_for_each_visual `{Utils}
    (scale : string) (self : PartsLink.t) (link : Element) :
  link_xml scale self = Done (Some link) →
  ∃ bodies,
    PartsLink.body_dict self !! format_name (PartsLink.name self) = Some bodies
    ∧ List.length (findall link "inertial") = 1%nat
    ∧ List.length (findall link "visual") = geometries self bodies
    ∧ List.length (findall link "collision") = geometries self bodies.
Proof.
  unfold link_xml, geometries, findall. intros Hl.
  destruct (PartsLink.body_dict self !! format_name (PartsLink.name self))
    as [bodies|]; [|done].
  exists bodies. split; [done|].
  bind_inv Hl inertia Hi. bind_inv Hl visuals Hv. injection Hl as <-.
  cbn [sub]. rewrite !filter_cons. cbn [tag].
  rewrite decide_True by done. rewrite !decide_False by done.
  rewrite !filter_app.
  destruct (PartsLink.sub_mesh self).
  - injection Hv as <-.
    rewrite (filter_tag_none _ "inertial"), (filter_tag_none _ "inertial") by done.
    rewrite (filter_tag_all _ "visual"), (filter_tag_none _ "visual") by done.
    rewrite (filter_tag_none _ "collision"), (filter_tag_all _ "collision") by done.
    cbn. by rewrite app_nil_r, !length_fmap.
  - destruct (PartsLink.visible self).
    + bind_inv Hv material Hm. injection Hv as <-. by cbn.
    + injection Hv as <-. by cbn.
Qed.

Lemma link_xml_has_a_collision_for_each_visual_witness :
  ∃ link bodies,
    link_xml "0.01"
      (PartsLink.mk "arm" [0; 0; 0]%float (so3_to_euler (frame 0 0 0)) [0; 0; 0]%float
         "robot/meshes/" 1 [1; 1; 1; 0; 0; 0]%float
         {["arm" := ["arm_Body1_0"; "arm_Body2_0"]]} true ∅ true)
    = Done (Some link)
    ∧ bodies = ["arm_Body1_0"; "arm_Body2_0"]
    ∧ List.length (findall link "visual") = 2%nat.
Proof.
  assert (Hl : ∃ link,
    link_xml "0.01"
      (PartsLink.mk "arm" [0; 0; 0]%float (so3_to_euler (frame 0 0 0)) [0; 0; 0]%float
         "robot/meshes/" 1 [1; 1; 1; 0; 0; 0]%float
         {["arm" := ["arm_Body1_0"; "arm_Body2_0"]]} true ∅ true)
    = Done (Some link)) by (eexists; vm_compute; reflexivity).
  destruct Hl as [link Hl]. exists link.
  destruct (link_xml_has_a_collision_for_each_visual _ _ _ Hl)
    as (bodies & Hb & _ & Hv & _).
  exists bodies. split; [exact Hl|].
  assert (Hbodies : bodies = ["arm_Body1_0"; "arm_Body2_0"]).
  { vm_compute in Hb. by injection Hb as <-. }
  split; [exact Hbodies|]. rewrite Hv, Hbodies. reflexivity.
Defined.

(** X23: how [link_xml] ends: with the empty string when the link has no
    entry in [body_dict]; with an [IndexError] when it has one and the
    inertia tensor holds fewer than six numbers; with a [KeyError] when the
    link is visible, is exported as one mesh and has no entry in
    [material_dict]; and with an element in every other case. *)
Theorem link_xml_outcome `{Utils} (scale : string) (self : PartsLink.t) :
  let name := format_name (PartsLink.name self) in
  match link_xml scale self with
  | Done None => PartsLink.body_dict self !! name = None
  | Done (Some link) =>
      is_Some (PartsLink.body_dict self !! name)
      ∧ (6 ≤ List.length (PartsLink.inertia_tensor self))%nat
      ∧ tag link = "link"
      ∧ attrib link = [("name", AStr name)]
  | Raised e =>
      is_Some (PartsLink.body_dict self !! name)
      ∧ (e = IndexError ∧ (List.length (PartsLink.inertia_tensor self) < 6)%nat
         ∨ e = KeyError
           ∧ (6 ≤ List.length (PartsLink.inertia_tensor self))%nat
           ∧ PartsLink.sub_mesh self = false
           ∧ PartsLink.visible self = true
           ∧ PartsLink.material_dict self !! name = None)
  | _ => False
  end.
Proof.
  cbn zeta. unfold link_xml.
  destruct (PartsLink.body_dict self !! format_name (PartsLink.name self))
    as [bodies|]; [|done].
  destruct (PartsLink.inertia_tensor self) as [|ixx [|iyy [|izz [|ixy [|iyz [|ixz t]]]]]];
    cbn; try (split; [by eexists|left; split; [done|lia]]).
  destruct (PartsLink.sub_mesh self); cbn.
  { split_and!; [by eexists|lia|done|done]. }
  destruct (PartsLink.visible self); cbn.
  2: { split_and!; [by eexists|lia|done|done]. }
  unfold subscript.
  destruct (PartsLink.material_dict self !! format_name (PartsLink.name self)); cbn.
  - split_and!; [by eexists|lia|done|done].
  - split; [by eexists|]. right. split_and!; [done|lia|done..].
Qed.
